(** * CacheUtil.js: the TTMS two-tier fetch cache, embedded in Rocq

    The JavaScript module [CacheUtil] keeps a memory tier ([memoryCache]),
    an in-flight registry ([inflight]), hit/miss statistics and a
    circuit-breaker flag in its closure, and talks to two host
    collaborators: [localStorage] and [fetch].  JavaScript runs one
    synchronous segment at a time, so the embedding is a state machine
    over a [World]: one transition per synchronous segment of the
    source (a call of [cachedFetch] up to its first suspension, the
    continuation that runs when a network response arrives, a call of
    [clearCache], ...).

    Conventions of the embedding:
    - [Date.now()] is an input of each transition, one reading per
      segment;
    - [await fetch(url)] followed by [await response.text()] is one
      network operation with one answer, a [NetResult];
    - strings are strings of characters below 256, which is what [btoa]
      accepts (line 72); every statement about a URL is about such a
      URL, and [getCacheKey_units] has the case that [btoa] refuses;
    - [console] output is left out;
    - calls to the host ([fetch], [getItem], [setItem], [removeItem]) are
      counted in [calls], so that "does not read" and "tries once more"
      can be stated. *)

From Stdlib Require Import ZArith Ascii String Lia.
From stdpp Require Import base strings gmap list pretty.

Open Scope Z_scope.
Open Scope string_scope.

#[local] Set Warnings "-register-all".

(** ** Values *)

(** JSON payloads.  The cache never computes with a payload: it stores
    it, hands it back, and tests it for truthiness once (line 145).
    Numbers are carried as integers. *)
Inductive JSON : Type :=
| JNull
| JBool (b : bool)
| JNum (n : Z)
| JStr (s : string)
| JArr (items : list JSON)
| JObj (fields : list (string * JSON)).

(** JavaScript truthiness of a JSON value. *)
Definition truthy (v : JSON) : bool :=
  match v with
  | JNull => false
  | JBool b => b
  | JNum n => negb (n =? 0)%Z
  | JStr s => negb (String.eqb s "")
  | JArr _ | JObj _ => true
  end.

(** [{ timestamp: Date.now(), data }], lines 154 and 194-197. *)
Record CacheEntry : Type := mkEntry { timestamp : Z; data : JSON }.

(** A response body, seen through [JSON.parse]: either the text of a
    JSON value or text that makes [JSON.parse] throw. *)
Inductive Body : Type :=
| JsonText (v : JSON)
| BadText (raw : string).

Definition JSON_parse (text : Body) : option JSON :=
  match text with
  | JsonText v => Some v
  | BadText _ => None
  end.

(** A string held by [localStorage], seen through [JSON.parse]: either
    what [JSON.stringify] made of a cache entry (lines 156, 205, 214), or
    text on which [JSON.parse] throws, such as a session token or a
    truncated entry.  The empty string is the one falsy string of the
    second kind.  Text that parses to something else than an entry
    object is not part of the model: the cache writes none, and the
    prefix is reserved to it. *)
Inductive Stored : Type :=
| EntryText (e : CacheEntry)
| OtherText (raw : string).

Definition JSON_stringify (e : CacheEntry) : Stored := EntryText e.

Definition parse_entry (cached : Stored) : option CacheEntry :=
  match cached with
  | EntryText e => Some e
  | OtherText _ => None
  end.

(** [if (cached)] on a string returned by [getItem]. *)
Definition nonempty (cached : Stored) : bool :=
  match cached with
  | EntryText _ => true
  | OtherText raw => negb (String.eqb raw "")
  end.

(** ** Key Deriver (lines 8, 45-48, 64-73) *)

Definition CACHE_PREFIX : string := "TTMS_cache_".

Definition startsWith (key pre : string) : bool := String.prefix pre key.

(** [hash |= 0]: wrap to a signed 32-bit integer. *)
Definition to_int32 (z : Z) : Z := (z + 2 ^ 31) `mod` 2 ^ 32 - 2 ^ 31.

Definition charCode (c : ascii) : Z := Z.of_N (N_of_ascii c).

(** One round of the loop at lines 67-71. *)
Definition hash_step (hash : Z) (c : ascii) : Z :=
  to_int32 ((to_int32 (Z.shiftl hash 5) - hash) + charCode c).

Fixpoint hash_loop (url : string) (hash : Z) : Z :=
  match url with
  | EmptyString => hash
  | String c rest => hash_loop rest (hash_step hash c)
  end.

Definition base64_alphabet : string :=
  "ABCDEFGHIJKLMNOPQRSTUVWXYZabcdefghijklmnopqrstuvwxyz0123456789+/".

Definition base64_digit (n : N) : ascii :=
  match String.get (N.to_nat n) base64_alphabet with
  | Some c => c
  | None => "="%char
  end.

Fixpoint btoa_bytes (l : list N) : string :=
  let d := base64_digit in
  match l with
  | [] => ""
  | [a] =>
      String (d (a / 4)) (String (d (a `mod` 4 * 16)) "==")
  | [a; b] =>
      String (d (a / 4)) (String (d (a `mod` 4 * 16 + b / 16))
        (String (d (b `mod` 16 * 4)) "="))
  | a :: b :: c :: rest =>
      String (d (a / 4)) (String (d (a `mod` 4 * 16 + b / 16))
        (String (d (b `mod` 16 * 4 + c / 64)) (String (d (c `mod` 64))
          (btoa_bytes rest))))
  end%N.

Definition btoa (s : string) : string :=
  btoa_bytes (map N_of_ascii (list_ascii_of_string s)).

Definition isAlnum (c : ascii) : bool :=
  let n := N_of_ascii c in
  ((48 <=? n) && (n <=? 57) || (65 <=? n) && (n <=? 90)
   || (97 <=? n) && (n <=? 122))%N.

(** [.replace(/[^a-zA-Z0-9]/g, '')] *)
Fixpoint keepAlnum (s : string) : string :=
  match s with
  | EmptyString => EmptyString
  | String c rest =>
      if isAlnum c then String c (keepAlnum rest) else keepAlnum rest
  end.

Definition getCacheKey (url : string) : string :=
  CACHE_PREFIX ++ pretty (hash_loop url 0) ++ "_"
  ++ substring 0 40 (keepAlnum (btoa (substring 0 100 url))).

(** [[^&]+] : the longest run of characters other than [&]. *)
Fixpoint upToAmp (s : string) : string :=
  match s with
  | EmptyString => EmptyString
  | String c rest =>
      if Ascii.eqb c "&" then EmptyString else String c (upToAmp rest)
  end.

(** [s] begins with [pre]: the rest of [s], if so. *)
Fixpoint afterPrefix (pre s : string) : option string :=
  match pre, s with
  | EmptyString, _ => Some s
  | String a pre', String b s' =>
      if Ascii.eqb a b then afterPrefix pre' s' else None
  | String _ _, EmptyString => None
  end.

(** [url.match(/entity=([^&]+)/)]: the leftmost position where
    [entity=] is followed by at least one character other than [&];
    the capture group is the whole run. *)
Fixpoint matchEntity (url : string) : option string :=
  match afterPrefix "entity=" url with
  | Some rest =>
      match upToAmp rest with
      | EmptyString =>
          match url with
          | EmptyString => None
          | String _ url' => matchEntity url'
          end
      | run => Some run
      end
  | None =>
      match url with
      | EmptyString => None
      | String _ url' => matchEntity url'
      end
  end.

Definition getEntityFromUrl (url : string) : string :=
  match matchEntity url with
  | Some m1 => m1
  | None => "default"
  end.

(** ** TTL Resolver (lines 17-29, 55-57, 81-85, 109) *)

Definition TTL_CONFIG : list (string * Z) :=
  [ ("sesisemester", 24 * 60 * 60 * 1000);
    ("pelajar_subjek", 60 * 60 * 1000);
    ("jadual_subjek", 60 * 60 * 1000);
    ("jadual_ruang", 60 * 60 * 1000);
    ("ruang", 6 * 60 * 60 * 1000);
    ("subjek", 60 * 60 * 1000);
    ("subjek_seksyen", 60 * 60 * 1000);
    ("pensyarah", 6 * 60 * 60 * 1000);
    ("pelajar", 30 * 60 * 1000);
    ("subjek_pelajar", 30 * 60 * 1000);
    ("default", 30 * 60 * 1000) ].

(** [TTL_CONFIG] is an object literal, so a property read that finds no
    own property goes on to [Object.prototype]. *)
Definition Object_prototype : list string :=
  [ "constructor"; "__defineGetter__"; "__defineSetter__";
    "hasOwnProperty"; "__lookupGetter__"; "__lookupSetter__";
    "isPrototypeOf"; "propertyIsEnumerable"; "toString"; "valueOf";
    "__proto__"; "toLocaleString" ].

(** The values the variable [ttl] can hold. *)
Inductive TTL : Type :=
| Millis (ms : Z)
| Inherited (name : string)   (* a function or object of Object.prototype *)
| Undefined.

Fixpoint ownProperty (table : list (string * Z)) (name : string) : option Z :=
  match table with
  | [] => None
  | (k, v) :: rest => if String.eqb k name then Some v else ownProperty rest name
  end.

Definition inPrototype (name : string) : bool :=
  existsb (String.eqb name) Object_prototype.

(** [TTL_CONFIG[entity]] *)
Definition TTL_CONFIG_get (entity : string) : TTL :=
  match ownProperty TTL_CONFIG entity with
  | Some ms => Millis ms
  | None => if inPrototype entity then Inherited entity else Undefined
  end.

Definition ttl_truthy (t : TTL) : bool :=
  match t with
  | Millis ms => negb (ms =? 0)%Z
  | Inherited _ => true
  | Undefined => false
  end.

Definition getTTL (entity : string) : TTL :=
  let own := TTL_CONFIG_get entity in
  if ttl_truthy own then own else TTL_CONFIG_get "default".

(** [customTTL || getTTL(entity)], line 109; [customTTL] is [null] or a
    number. *)
Definition effectiveTTL (customTTL : option Z) (entity : string) : TTL :=
  match customTTL with
  | Some ms => if negb (ms =? 0)%Z then Millis ms else getTTL entity
  | None => getTTL entity
  end.

(** [age < ttl]; a [ttl] that is not a number compares as NaN. *)
Definition lessThan (age : Z) (ttl : TTL) : bool :=
  match ttl with
  | Millis ms => (age <? ms)%Z
  | Inherited _ | Undefined => false
  end.

(** Lines 81-85, for an entry object; [now] is the reading of
    [Date.now()]. *)
Definition isCacheValid (now : Z) (cacheEntry : CacheEntry) (ttl : TTL) : bool :=
  if (timestamp cacheEntry =? 0)%Z then false
  else
    let age := now - timestamp cacheEntry in
    lessThan age ttl.

(** ** The world: closure state, host collaborators, pending work *)

Record Options : Type := mkOptions {
  forceRefresh : bool;
  skipCache : bool;
  customTTL : option Z;
  staleWhileRevalidate : bool
}.

(** [options = {}] *)
Definition defaults : Options := mkOptions false false None false.

Record Stats : Type := mkStats { hits : nat; misses : nat }.

(** How a promise can be rejected. *)
Inductive Failure : Type :=
| NetworkFailure        (* fetch() or response.text() rejected *)
| InvalidJSONResponse   (* Error("Invalid JSON response from TTMS"), line 190 *)
| BodySyntaxError.      (* response.json() rejected, line 104 *)

Inductive Settled : Type :=
| Fulfilled (value : JSON)
| Rejected (error : Failure).

(** What the network hands back to one [fetch(url)] followed by
    [response.text()]. *)
Inductive NetResult : Type :=
| Arrived (text : Body)
| Unreachable.

(** What [localStorage.setItem] can throw. *)
Inductive DOMException : Type :=
| QuotaExceededError   (* name 'QuotaExceededError' or code 22 *)
| OtherError.

(** The code that waits for a network response.  The table [network]
    below is keyed by the promise of the async function that issued the
    [fetch]. *)
Inductive Awaiting : Type :=
| AwaitDirect (url : string)                        (* line 103 *)
| AwaitRefresh (url cacheKey : string) (stale : CacheEntry)   (* lines 149-163 *)
| AwaitFetch (url cacheKey : string) (caller : nat).          (* lines 179-226, 233 *)

(** Calls made to the host, counted. *)
Record HostCalls : Type := mkCalls {
  fetchCalls : nat;
  getItemCalls : nat;
  setItemCalls : nat;
  removeItemCalls : nat
}.

Record World : Type := mkWorld {
  (* closure of CacheUtil *)
  memoryCache : gmap string CacheEntry;
  inflight : gmap string nat;
  stats : Stats;
  storageQuotaExceeded : bool;
  (* host *)
  localStorage : gmap string Stored;
  setItemThrows : gmap string Stored → string → Stored → option DOMException;
  calls : HostCalls;
  (* event loop *)
  network : gmap nat Awaiting;
  promises : gmap nat Settled;
  adopted : gmap nat nat;
  fresh : nat
}.

Definition set_memoryCache (f : gmap string CacheEntry → gmap string CacheEntry) (w : World) : World :=
  mkWorld (f (memoryCache w)) (inflight w) (stats w) (storageQuotaExceeded w)
    (localStorage w) (setItemThrows w) (calls w)
    (network w) (promises w) (adopted w) (fresh w).

Definition set_inflight (f : gmap string nat → gmap string nat) (w : World) : World :=
  mkWorld (memoryCache w) (f (inflight w)) (stats w) (storageQuotaExceeded w)
    (localStorage w) (setItemThrows w) (calls w)
    (network w) (promises w) (adopted w) (fresh w).

Definition set_stats (f : Stats → Stats) (w : World) : World :=
  mkWorld (memoryCache w) (inflight w) (f (stats w)) (storageQuotaExceeded w)
    (localStorage w) (setItemThrows w) (calls w)
    (network w) (promises w) (adopted w) (fresh w).

Definition set_storageQuotaExceeded (b : bool) (w : World) : World :=
  mkWorld (memoryCache w) (inflight w) (stats w) b
    (localStorage w) (setItemThrows w) (calls w)
    (network w) (promises w) (adopted w) (fresh w).

Definition set_localStorage (f : gmap string Stored → gmap string Stored) (w : World) : World :=
  mkWorld (memoryCache w) (inflight w) (stats w) (storageQuotaExceeded w)
    (f (localStorage w)) (setItemThrows w) (calls w)
    (network w) (promises w) (adopted w) (fresh w).

Definition set_calls (f : HostCalls → HostCalls) (w : World) : World :=
  mkWorld (memoryCache w) (inflight w) (stats w) (storageQuotaExceeded w)
    (localStorage w) (setItemThrows w) (f (calls w))
    (network w) (promises w) (adopted w) (fresh w).

Definition set_network (f : gmap nat Awaiting → gmap nat Awaiting) (w : World) : World :=
  mkWorld (memoryCache w) (inflight w) (stats w) (storageQuotaExceeded w)
    (localStorage w) (setItemThrows w) (calls w)
    (f (network w)) (promises w) (adopted w) (fresh w).

Definition set_promises (f : gmap nat Settled → gmap nat Settled) (w : World) : World :=
  mkWorld (memoryCache w) (inflight w) (stats w) (storageQuotaExceeded w)
    (localStorage w) (setItemThrows w) (calls w)
    (network w) (f (promises w)) (adopted w) (fresh w).

Definition set_adopted (f : gmap nat nat → gmap nat nat) (w : World) : World :=
  mkWorld (memoryCache w) (inflight w) (stats w) (storageQuotaExceeded w)
    (localStorage w) (setItemThrows w) (calls w)
    (network w) (promises w) (f (adopted w)) (fresh w).

Definition set_fresh (n : nat) (w : World) : World :=
  mkWorld (memoryCache w) (inflight w) (stats w) (storageQuotaExceeded w)
    (localStorage w) (setItemThrows w) (calls w)
    (network w) (promises w) (adopted w) n.

(** The module as loaded: empty tiers, zeroed counters, breaker open. *)
Definition boot (storage : gmap string Stored)
    (throws : gmap string Stored → string → Stored → option DOMException) : World :=
  mkWorld ∅ ∅ (mkStats 0 0) false storage throws (mkCalls 0 0 0 0) ∅ ∅ ∅ 0.

(** *** Host collaborators *)

Definition localStorage_getItem (key : string) (w : World) : option Stored * World :=
  (localStorage w !! key,
   set_calls (λ c, mkCalls (fetchCalls c) (S (getItemCalls c)) (setItemCalls c) (removeItemCalls c)) w).

Definition localStorage_setItem (key : string) (value : Stored) (w : World)
  : option DOMException * World :=
  let w := set_calls (λ c, mkCalls (fetchCalls c) (getItemCalls c) (S (setItemCalls c)) (removeItemCalls c)) w in
  match setItemThrows w (localStorage w) key value with
  | Some e => (Some e, w)
  | None => (None, set_localStorage (λ s, <[key := value]> s) w)
  end.

Definition localStorage_removeItem (key : string) (w : World) : World :=
  set_localStorage (λ s, delete key s)
    (set_calls (λ c, mkCalls (fetchCalls c) (getItemCalls c) (setItemCalls c) (S (removeItemCalls c))) w).

(** [localStorage.key(i)] for [i < localStorage.length]. *)
Definition localStorage_keys (w : World) : list string :=
  (map_to_list (localStorage w)).*1.

(** [fetch(url)] issued by the async function whose promise is [self];
    [k] is the code waiting for the response. *)
Definition fetch (self : nat) (k : Awaiting) (w : World) : World :=
  set_network (λ n, <[self := k]> n)
    (set_calls (λ c, mkCalls (S (fetchCalls c)) (getItemCalls c) (setItemCalls c) (removeItemCalls c)) w).

(** *** Promises *)

Definition newPromise (w : World) : nat * World := (fresh w, set_fresh (S (fresh w)) w).

Definition settle (p : nat) (outcome : Settled) (w : World) : World :=
  set_promises (λ ps, <[p := outcome]> ps) w.

(** An async function returned the promise [ticket]: its own promise
    [self] follows it. *)
Definition adopt (self ticket : nat) (w : World) : World :=
  set_adopted (λ a, <[self := ticket]> a) w.

(** What the holder of promise [p] has received so far. *)
Definition delivered (w : World) (p : nat) : option Settled :=
  match promises w !! p with
  | Some outcome => Some outcome
  | None =>
      match adopted w !! p with
      | Some ticket => promises w !! ticket
      | None => None
      end
  end.

(** ** Entry Store housekeeping (lines 274-325, 345-348) *)

(** [key && key.startsWith(CACHE_PREFIX)] *)
Definition namespaced (key : string) : bool :=
  negb (String.eqb key "") && startsWith key CACHE_PREFIX.

(** Lines 311-319 for one key: is it pushed onto [keysToRemove]?
    Text that does not parse lands in the [catch], which pushes too. *)
Definition tooOld (now : Z) (text : option Stored) : bool :=
  match text with
  | Some t =>
      match parse_entry t with
      | Some entry => (24 * 60 * 60 * 1000 <? now - timestamp entry)%Z
      | None => true
      end
  | None => true
  end.

(** The loop at lines 308-321. *)
Fixpoint scanOld (now : Z) (keys : list string) (w : World) : list string * World :=
  match keys with
  | [] => ([], w)
  | key :: rest =>
      if namespaced key then
        let (text, w) := localStorage_getItem key w in
        let (keysToRemove, w) := scanOld now rest w in
        (if tooOld now text then key :: keysToRemove else keysToRemove, w)
      else scanOld now rest w
  end.

(** [keysToRemove.forEach(key => localStorage.removeItem(key))] *)
Definition removeAll (keysToRemove : list string) (w : World) : World :=
  foldl (λ w key, localStorage_removeItem key w) w keysToRemove.

Definition clearOldCache (now : Z) (w : World) : nat * World :=
  let (keysToRemove, w) := scanOld now (localStorage_keys w) w in
  (length keysToRemove, removeAll keysToRemove w).

(** [!entityPrefix] *)
Definition noPrefix (entityPrefix : option string) : bool :=
  match entityPrefix with
  | None => true
  | Some s => String.eqb s ""
  end.

(** The loop at lines 277-294: every branch pushes the key; with an
    entity prefix the entry is read first and the reading discarded. *)
Fixpoint scanAll (entityPrefix : option string) (keys : list string) (w : World)
  : list string * World :=
  match keys with
  | [] => ([], w)
  | key :: rest =>
      if namespaced key then
        let w := if noPrefix entityPrefix then w
                 else snd (localStorage_getItem key w) in
        let (keysToRemove, w) := scanAll entityPrefix rest w in
        (key :: keysToRemove, w)
      else scanAll entityPrefix rest w
  end.

Definition clearCache (entityPrefix : option string) (w : World) : nat * World :=
  let (keysToRemove, w) := scanAll entityPrefix (localStorage_keys w) w in
  (length keysToRemove, removeAll keysToRemove w).

Definition resetStats (w : World) : World := set_stats (λ _, mkStats 0 0) w.

Definition hit (w : World) : World :=
  set_stats (λ s, mkStats (S (hits s)) (misses s)) w.

Definition miss (w : World) : World :=
  set_stats (λ s, mkStats (hits s) (S (misses s))) w.

(** ** Quota Guard (lines 202-223) *)

Definition persist (cacheKey : string) (cacheEntry : CacheEntry) (now : Z) (w : World) : World :=
  if storageQuotaExceeded w then w
  else
    match localStorage_setItem cacheKey (JSON_stringify cacheEntry) w with
    | (None, w) => w
    | (Some QuotaExceededError, w) =>
        let (cleared, w) := clearOldCache now w in
        match localStorage_setItem cacheKey (JSON_stringify cacheEntry) w with
        | (None, w) => w
        | (Some e2, w) => set_storageQuotaExceeded true w
        end
    | (Some OtherError, w) => w
    end.

(** ** Fetch Orchestrator (lines 93-254) *)

(** The async function at lines 179-226 once the response is in:
    how [fetchPromise] settles. *)
Definition fetchBody (cacheKey : string) (result : NetResult) (now : Z) (w : World)
  : Settled * World :=
  match result with
  | Unreachable => (Rejected NetworkFailure, w)
  | Arrived text =>
      match JSON_parse text with
      | None => (Rejected InvalidJSONResponse, w)
      | Some data =>
          let cacheEntry := mkEntry now data in
          let w := set_memoryCache (λ m, <[cacheKey := cacheEntry]> m) w in
          let w := persist cacheKey cacheEntry now w in
          (Fulfilled data, w)
      end
  end.

(** The [catch] at lines 235-250. *)
Definition staleFallback (cacheKey : string) (error : Failure) (w : World)
  : Settled * World :=
  let (cached, w) := localStorage_getItem cacheKey w in
  match cached with
  | Some text =>
      if nonempty text then
        match parse_entry text with
        | Some cacheEntry => (Fulfilled (data cacheEntry), w)
        | None => (Rejected error, w)
        end
      else (Rejected error, w)
  | None => (Rejected error, w)
  end.

(** The background refresh at lines 149-163 once the response is in:
    how [refreshPromise] settles. *)
Definition refreshBody (cacheKey : string) (stale : CacheEntry) (result : NetResult)
    (now : Z) (w : World) : Settled * World :=
  let (outcome, w) :=
    match result with
    | Arrived text =>
        match JSON_parse text with
        | Some data =>
            let newEntry := mkEntry now data in
            let w := set_memoryCache (λ m, <[cacheKey := newEntry]> m) w in
            let (ignored, w) := localStorage_setItem cacheKey (JSON_stringify newEntry) w in
            (Fulfilled data, w)
        | None => (Fulfilled (data stale), w)
        end
    | Unreachable => (Fulfilled (data stale), w)
    end in
  (outcome, set_inflight (λ i, delete cacheKey i) w).

(** Lines 128-171, the durable tier: [Some data] when the call returns
    from here.  A stale entry served under [staleWhileRevalidate] starts
    the background refresh unless a ticket is registered. *)
Definition readDurable (url cacheKey : string) (ttl : TTL) (swr : bool) (now : Z) (w : World)
  : option JSON * World :=
  let (cached, w) := localStorage_getItem cacheKey w in
  match cached with
  | Some text =>
      if nonempty text then
        match parse_entry text with
        | Some cacheEntry =>
            if isCacheValid now cacheEntry ttl then
              let w := hit w in
              let w := set_memoryCache (λ m, <[cacheKey := cacheEntry]> m) w in
              (Some (data cacheEntry), w)
            else if swr && truthy (data cacheEntry) then
              let w := hit w in
              let w :=
                match inflight w !! cacheKey with
                | Some _ => w
                | None =>
                    let (refreshPromise, w) := newPromise w in
                    let w := fetch refreshPromise (AwaitRefresh url cacheKey cacheEntry) w in
                    set_inflight (λ i, <[cacheKey := refreshPromise]> i) w
                end in
              (Some (data cacheEntry), w)
            else (None, w)
        | None => (None, w)          (* catch at line 169 *)
        end
      else (None, w)
  | None => (None, w)
  end.

(** Lines 117-172: memory tier first, then the durable tier. *)
Definition readCache (url cacheKey : string) (ttl : TTL) (swr : bool) (now : Z) (w : World)
  : option JSON * World :=
  match memoryCache w !! cacheKey with
  | Some memoryEntry =>
      if isCacheValid now memoryEntry ttl then (Some (data memoryEntry), hit w)
      else readDurable url cacheKey ttl swr now w
  | None => readDurable url cacheKey ttl swr now w
  end.

(** [cachedFetch(url, options)] up to its first suspension.  Returns the
    promise handed to the caller. *)
Definition cachedFetch (url : string) (options : Options) (now : Z) (w : World)
  : nat * World :=
  let (self, w) := newPromise w in
  if skipCache options then
    (self, fetch self (AwaitDirect url) w)
  else
    let cacheKey := getCacheKey url in
    let entity := getEntityFromUrl url in
    let ttl := effectiveTTL (customTTL options) entity in
    match (if negb (skipCache options) && negb (forceRefresh options)
           then inflight w !! cacheKey else None) with
    | Some ticket => (self, adopt self ticket w)
    | None =>
        let (served, w) :=
          if negb (forceRefresh options)
          then readCache url cacheKey ttl (staleWhileRevalidate options) now w
          else (None, w) in
        match served with
        | Some value => (self, settle self (Fulfilled value) w)
        | None =>
            let w := miss w in
            let (fetchPromise, w) := newPromise w in
            let w := fetch fetchPromise (AwaitFetch url cacheKey self) w in
            let w := if negb (skipCache options) && negb (forceRefresh options)
                     then set_inflight (λ i, <[cacheKey := fetchPromise]> i) w
                     else w in
            (self, w)
        end
    end.

(** The continuation that runs when the response to the [fetch] issued
    under [ticket] is in ([response.text()] included).  For a fetch of
    the miss path this is the rest of the async function at lines
    179-226 followed by the caller's own continuation at lines 233-253,
    which is the first reaction registered on [fetchPromise]. *)
Definition respond (ticket : nat) (result : NetResult) (now : Z) (w : World) : World :=
  match network w !! ticket with
  | None => w
  | Some waiting =>
      let w := set_network (λ n, delete ticket n) w in
      match waiting with
      | AwaitDirect url =>
          let outcome :=
            match result with
            | Arrived text =>
                match JSON_parse text with
                | Some value => Fulfilled value
                | None => Rejected BodySyntaxError
                end
            | Unreachable => Rejected NetworkFailure
            end in
          settle ticket outcome w
      | AwaitRefresh url cacheKey stale =>
          let (outcome, w) := refreshBody cacheKey stale result now w in
          settle ticket outcome w
      | AwaitFetch url cacheKey caller =>
          let (outcome, w) := fetchBody cacheKey result now w in
          let w := settle ticket outcome w in
          let (answer, w) :=
            match outcome with
            | Fulfilled value => (Fulfilled value, w)
            | Rejected error => staleFallback cacheKey error w
            end in
          let w := settle caller answer w in
          set_inflight (λ i, delete cacheKey i) w
      end
  end.

(** ** The event loop *)

Inductive Action : Type :=
| Call (url : string) (options : Options) (now : Z)
| Respond (ticket : nat) (result : NetResult) (now : Z)
| ClearCache (entityPrefix : option string)
| ClearOldCache (now : Z)
| ResetStats.

Definition exec (w : World) (a : Action) : World :=
  match a with
  | Call url options now => snd (cachedFetch url options now w)
  | Respond ticket result now => respond ticket result now w
  | ClearCache entityPrefix => snd (clearCache entityPrefix w)
  | ClearOldCache now => snd (clearOldCache now w)
  | ResetStats => resetStats w
  end.

Definition run (w : World) (script : list Action) : World := foldl exec w script.


(** ** Vocabulary of the statements *)

(** Bookkeeping of host calls. *)
Definition addGetItems (n : nat) (w : World) : World :=
  set_calls (λ c, mkCalls (fetchCalls c) (n + getItemCalls c) (setItemCalls c) (removeItemCalls c)) w.

Definition addRemoveItems (n : nat) (w : World) : World :=
  set_calls (λ c, mkCalls (fetchCalls c) (getItemCalls c) (setItemCalls c) (n + removeItemCalls c)) w.

Definition deleteAll (keys : list string) (s : gmap string Stored) : gmap string Stored :=
  foldl (λ s key, delete key s) s keys.

(** The keys [clearOldCache] and [clearCache] collect. *)
Definition oldKeys (now : Z) (w : World) : list string :=
  List.filter (λ key, namespaced key && tooOld now (localStorage w !! key))
    (localStorage_keys w).

Definition ownKeys (w : World) : list string :=
  List.filter namespaced (localStorage_keys w).

(** The TTL table as the specification words it: the entry of the
    entity class, or the default entry of 30 minutes. *)
Definition ttlFor (entity : string) : Z :=
  match ownProperty TTL_CONFIG entity with
  | Some ms => ms
  | None => 30 * 60 * 1000
  end.

(** No position inside [pre] starts a match of [/entity=([^&]+)/] in
    [pre ++ tail]. *)
Fixpoint unmatched (pre tail : string) : bool :=
  match pre with
  | EmptyString => true
  | String c pre' =>
      match afterPrefix "entity=" (pre ++ tail) with
      | Some rest => String.eqb (upToAmp rest) ""
      | None => true
      end && unmatched pre' tail
  end.

(** [s] has no [&]. *)
Fixpoint ampFree (s : string) : bool :=
  match s with
  | EmptyString => true
  | String c rest => negb (Ascii.eqb c "&") && ampFree rest
  end.

(** [s] is empty or begins with [&]. *)
Definition atBoundary (s : string) : bool :=
  match s with
  | EmptyString => true
  | String c _ => Ascii.eqb c "&"
  end.

(** The Entry Store, the In-Flight Registry, the statistics and the
    breaker are the same in [w] and [w']. *)
Definition sameCache (w w' : World) : Prop :=
  memoryCache w' = memoryCache w ∧ inflight w' = inflight w
  ∧ stats w' = stats w ∧ storageQuotaExceeded w' = storageQuotaExceeded w
  ∧ localStorage w' = localStorage w.

(** How a promise fed directly by the network settles (line 104). *)
Definition parsed (result : NetResult) : Settled :=
  match result with
  | Arrived (JsonText value) => Fulfilled value
  | Arrived (BadText _) => Rejected BodySyntaxError
  | Unreachable => Rejected NetworkFailure
  end.

(** What the [catch] at lines 235-250 answers with: the data of the
    durable entry of the key when localStorage holds one, the error
    otherwise. *)
Definition fallback (w : World) (cacheKey : string) (error : Failure) : Settled :=
  match localStorage w !! cacheKey with
  | Some (EntryText e) => Fulfilled (data e)
  | _ => Rejected error
  end.

(** Only the host side (localStorage, the call counters) and the
    breaker differ between [w] and [w']. *)
Definition hostChange (w w' : World) : Prop :=
  memoryCache w' = memoryCache w ∧ inflight w' = inflight w
  ∧ stats w' = stats w ∧ setItemThrows w' = setItemThrows w
  ∧ network w' = network w ∧ promises w' = promises w
  ∧ adopted w' = adopted w ∧ fresh w' = fresh w.

(** The durable store after the age-based eviction at time [now]. *)
Definition swept (now : Z) (w : World) : gmap string Stored :=
  localStorage (clearOldCache now w).2.

(** The cache key a pending fetch works for. *)
Definition ticketKey (waiting : Awaiting) : string :=
  match waiting with
  | AwaitDirect url => getCacheKey url
  | AwaitRefresh _ cacheKey _ => cacheKey
  | AwaitFetch _ cacheKey _ => cacheKey
  end.


(** Every pending fetch holds the ticket of its key in the registry. *)
Definition registered (w : World) : Prop :=
  ∀ ticket waiting,
    network w !! ticket = Some waiting →
    inflight w !! ticketKey waiting = Some ticket.

(** Promise numbers not handed out yet are unused. *)
Definition tidy (w : World) : Prop :=
  (∀ i, (fresh w ≤ i)%nat → promises w !! i = None)
  ∧ ∀ ticket waiting,
      network w !! ticket = Some waiting →
      (ticket < fresh w)%nat
      ∧ match waiting with
        | AwaitFetch _ _ caller => (caller < fresh w)%nat
        | _ => True
        end.

(** How fetchPromise settles (lines 180-225). *)
Definition fetched (result : NetResult) : Settled :=
  match result with
  | Arrived (JsonText value) => Fulfilled value
  | Arrived (BadText _) => Rejected InvalidJSONResponse
  | Unreachable => Rejected NetworkFailure
  end.

(** ** Sample data for the examples *)

Module Sample.

Definition pelajar : string :=
  "http://web.fc.utm.my/ttms/web_man_webservice_json.cgi?entity=pelajar&kod=1".
Definition ruang : string :=
  "http://web.fc.utm.my/ttms/web_man_webservice_json.cgi?entity=ruang&kod_fakulti=fsksm".

Definition pelajarKey : string := Eval vm_compute in getCacheKey pelajar.
Definition ruangKey : string := Eval vm_compute in getCacheKey ruang.

Definition minute : Z := 60 * 1000.
Definition hour : Z := 60 * minute.

(** A durable store that never refuses a write. *)
Definition roomy : gmap string Stored → string → Stored → option DOMException :=
  λ _ _ _, None.

(** A durable store with room for [limit] items. *)
Definition roomFor (limit : nat)
  : gmap string Stored → string → Stored → option DOMException :=
  λ store key value,
    if decide (limit < size (<[key := value]> store))%nat
    then Some QuotaExceededError else None.

(** The session key of the login gate and one entry of the cache,
    written at time 1000. *)
Definition storage : gmap string Stored :=
  <[pelajarKey := EntryText (mkEntry 1000 (JStr "old list"))]>
    (<["TTMSFC_userSession" := OtherText "lecturer"]> ∅).

(** A durable store that refuses every write for lack of room. *)
Definition full : gmap string Stored → string → Stored → option DOMException :=
  λ _ _ _, Some QuotaExceededError.

Definition skipping : Options := mkOptions false true None false.
Definition forcing : Options := mkOptions true false None false.
Definition revalidating : Options := mkOptions false false None true.

End Sample.

(** ** The rest of the module and the session gates *)



(** [s.includes(sub)] *)
Fixpoint includes (s sub : string) : bool :=
  String.prefix sub s
  || match s with
     | EmptyString => false
     | String _ rest => includes rest sub
     end.

(** What a session gate does to the page. *)
Inductive Page : Type :=
| Visible                                   (* display = 'block' *)
| Redirected (alert loginPage : string).    (* display = 'none', alert, location.replace *)

(** [!session] for what [localStorage.getItem] returned. *)
Definition noSession (session : option Stored) : bool :=
  match session with
  | Some text => negb (nonempty text)
  | None => true
  end.

(** The gate of src/unnamed/part_000, for [window.location.pathname]
    and the durable store. *)
Definition securityGate (path : string) (store : gmap string Stored) : Page :=
  let isInsideAdmin := includes path "AdminPart" in
  let isInsideStudent := includes path "StudentPart" in
  let isInsideLecturer := includes path "LecturerPart" in
  let isSubfolder := isInsideAdmin || isInsideStudent || isInsideLecturer in
  let sessionKey := if isInsideAdmin then "TTMSFC_adminSession" else "TTMSFC_userSession" in
  let session := store !! sessionKey in
  if noSession session then
    let loginPage := if isSubfolder then "../Login.html" else "Login.html" in
    Redirected "Unauthorized access! Please login." loginPage
  else Visible.

(** The gate of src/unnamed/part_001. *)
Definition userGate (path : string) (store : gmap string Stored) : Page :=
  let userSession := store !! "TTMSFC_userSession" in
  if noSession userSession then
    let isInsideSubfolder := includes path "StudentPart/" in
    let isInsideLecturerSubfolder := includes path "LecturerPart/" in
    let loginRedirect :=
      if isInsideSubfolder || isInsideLecturerSubfolder then "../login.html" else "login.html" in
    Redirected "Unauthorized access! Please login to continue." loginRedirect
  else Visible.

(** ** More vocabulary *)

Fixpoint allAlnum (s : string) : bool :=
  match s with
  | EmptyString => true
  | String c rest => isAlnum c && allAlnum rest
  end.

(** The part of a cache key after the hash and the underscore. *)
Definition keyTail (url : string) : string :=
  substring 0 40 (keepAlnum (btoa (substring 0 100 url))).

(** Every pending fetch of the cache works for the key of its URL. *)
Definition keyed (w : World) : Prop :=
  ∀ ticket waiting,
    network w !! ticket = Some waiting →
    match waiting with
    | AwaitDirect _ => True
    | AwaitRefresh url cacheKey _ => cacheKey = getCacheKey url
    | AwaitFetch url cacheKey _ => cacheKey = getCacheKey url
    end.

(** Every ticket in the registry belongs to a fetch that is still
    pending for that key. *)
Definition live (w : World) : Prop :=
  ∀ cacheKey ticket,
    inflight w !! cacheKey = Some ticket →
    ∃ waiting, network w !! ticket = Some waiting
      ∧ ticketKey waiting = cacheKey
      ∧ ∀ url, waiting ≠ AwaitDirect url.

Definition isReset (a : Action) : bool :=
  match a with
  | ResetStats => true
  | _ => false
  end.

(** The call reads the tiers: neither skipCache nor forceRefresh. *)
Definition reading (options : Options) : bool :=
  negb (skipCache options) && negb (forceRefresh options).

(** No tier can answer the call at [now]: the memory entry, if any, has
    expired; the durable value, if any, does not parse or has expired and
    may not be served stale. *)
Definition unanswerable (url : string) (options : Options) (now : Z) (w : World) : Prop :=
  let ttl := effectiveTTL (customTTL options) (getEntityFromUrl url) in
  (∀ e, memoryCache w !! getCacheKey url = Some e → isCacheValid now e ttl = false)
  ∧ ∀ e, localStorage w !! getCacheKey url = Some (EntryText e) →
      isCacheValid now e ttl = false
      ∧ staleWhileRevalidate options && truthy (data e) = false.

Module Scenario.

(** A URL of more than 100 characters. *)
Definition long : string :=
  "http://web.fc.utm.my/ttms/web_man_webservice_json.cgi?entity=pelajar_subjek&sesi=2025/2026&semester=1&no_matrik=".

(** A URL of the student list, up to the student's code. *)
Definition short : string :=
  "http://web.fc.utm.my/ttms/web_man_webservice_json.cgi?entity=pelajar&kod=".

(** A store with a fresh entry, an entry of two days ago and a value
    that does not parse, at time [3 * day]. *)
Definition day : Z := 24 * 60 * 60 * 1000.

Definition attic : gmap string Stored :=
  <[Sample.pelajarKey := EntryText (mkEntry (3 * day - 1000) (JStr "list"))]>
    (<[Sample.ruangKey := EntryText (mkEntry day (JStr "rooms"))]>
       (<["TTMS_cache_0_broken" := OtherText "{"]>
          (<["TTMSFC_userSession" := OtherText "student"]> ∅))).

End Scenario.

(** No fetch of the miss path is awaited by its own promise:
    fetchPromise and the promise of the call are two promises. *)
Definition apart (w : World) : Prop :=
  ∀ ticket url cacheKey caller,
    network w !! ticket = Some (AwaitFetch url cacheKey caller) → caller ≠ ticket.

(** ** The Key Deriver on any JavaScript string (lines 64-73)

    A JavaScript string is a sequence of UTF-16 code units, and a code
    unit may exceed 255.  [charCodeAt] (line 68) takes any of them, but
    [btoa] (line 72) throws an InvalidCharacterError on a code unit above
    255: [getCacheKey] returns no key for a URL that has such a unit among
    its first 100.  [getCacheKey] above is this function on the URLs whose
    code units are all below 256. *)

Definition hash_unit (hash : Z) (u : N) : Z :=
  to_int32 ((to_int32 (Z.shiftl hash 5) - hash) + Z.of_N u).

Fixpoint hash_units (units : list N) (hash : Z) : Z :=
  match units with
  | [] => hash
  | u :: rest => hash_units rest (hash_unit hash u)
  end.

(** [btoa]: [None] stands for the InvalidCharacterError. *)
Definition btoa_units (units : list N) : option string :=
  if forallb (λ u, (u <=? 255)%N) units then Some (btoa_bytes units) else None.

Definition getCacheKey_units (units : list N) : option string :=
  match btoa_units (take 100 units) with
  | Some encoded =>
      Some (CACHE_PREFIX ++ pretty (hash_units units 0) ++ "_"
            ++ substring 0 40 (keepAlnum encoded))
  | None => None
  end.

(** The code units of a string of characters below 256. *)
Definition codeUnits (url : string) : list N :=
  map N_of_ascii (list_ascii_of_string url).

(** * Properties *)

(** ** What the housekeeping loops compute *)

Lemma world_eta (w : World) :
  mkWorld (memoryCache w) (inflight w) (stats w) (storageQuotaExceeded w)
    (localStorage w) (setItemThrows w) (calls w)
    (network w) (promises w) (adopted w) (fresh w) = w.
Proof. by destruct w. Qed.

Lemma calls_eta (c : HostCalls) :
  mkCalls (fetchCalls c) (getItemCalls c) (setItemCalls c) (removeItemCalls c) = c.
Proof. by destruct c. Qed.

Lemma addGetItems_0 w : addGetItems 0 w = w.
Proof. unfold addGetItems, set_calls; simpl. by rewrite calls_eta, world_eta. Qed.

Lemma addRemoveItems_0 w : addRemoveItems 0 w = w.
Proof. unfold addRemoveItems, set_calls; simpl. by rewrite calls_eta, world_eta. Qed.

Lemma scanOld_spec now keys w :
  scanOld now keys w =
    (List.filter (λ key, namespaced key && tooOld now (localStorage w !! key)) keys,
     addGetItems (length (List.filter namespaced keys)) w).
Proof.
  revert w; induction keys as [|key rest IH]; intros w; simpl.
  - by rewrite addGetItems_0.
  - destruct (namespaced key); simpl; [|apply IH].
    rewrite IH; simpl.
    destruct (tooOld now (localStorage w !! key)); f_equal;
      unfold addGetItems, set_calls; simpl; do 2 f_equal; lia.
Qed.

Lemma scanAll_spec entityPrefix keys w :
  scanAll entityPrefix keys w =
    (List.filter namespaced keys,
     addGetItems (if noPrefix entityPrefix then 0
                  else length (List.filter namespaced keys)) w).
Proof.
  revert w; induction keys as [|key rest IH]; intros w; simpl.
  - destruct (noPrefix entityPrefix); by rewrite addGetItems_0.
  - destruct (namespaced key); simpl; [|apply IH].
    rewrite IH; simpl. f_equal.
    destruct (noPrefix entityPrefix); [done|].
    unfold addGetItems, set_calls; simpl; do 2 f_equal; lia.
Qed.

Lemma removeAll_spec keys w :
  removeAll keys w =
    set_localStorage (deleteAll keys) (addRemoveItems (length keys) w).
Proof.
  revert w; induction keys as [|key rest IH]; intros w.
  - unfold removeAll, deleteAll, set_localStorage; simpl.
    by rewrite calls_eta, world_eta.
  - unfold removeAll in *; simpl. rewrite IH.
    unfold set_localStorage, addRemoveItems, set_calls, localStorage_removeItem,
      deleteAll; simpl.
    do 2 f_equal; lia.
Qed.

Lemma deleteAll_lookup keys (s : gmap string Stored) (k : string) :
  deleteAll keys s !! k = if decide (k ∈ keys) then None else s !! k.
Proof.
  unfold deleteAll.
  revert s; induction keys as [|key rest IH]; intros s; simpl.
  - destruct (decide (k ∈ [])) as [Hin|]; [|done]. by apply not_elem_of_nil in Hin.
  - rewrite IH.
    destruct (decide (k ∈ rest)) as [Hin|Hout];
      destruct (decide (k ∈ key :: rest)) as [Hin'|Hout']; try done.
    + exfalso; apply Hout'; by apply elem_of_cons; right.
    + apply elem_of_cons in Hin' as [->|?]; [|done]. apply lookup_delete_eq.
    + apply lookup_delete_ne. intros ->. apply Hout', elem_of_cons; by left.
Qed.

Lemma keys_elem (w : World) (k : string) :
  k ∈ localStorage_keys w ↔ is_Some (localStorage w !! k).
Proof.
  unfold localStorage_keys. rewrite list_elem_of_fmap. split.
  - intros [[k' v] [-> Hin]]. apply elem_of_map_to_list in Hin. by exists v.
  - intros [v Hv]. exists (k, v). split; [done|]. by apply elem_of_map_to_list.
Qed.

Lemma clearOldCache_spec now w :
  clearOldCache now w =
    (length (oldKeys now w),
     set_localStorage (deleteAll (oldKeys now w))
       (addRemoveItems (length (oldKeys now w))
          (addGetItems (length (ownKeys w)) w))).
Proof.
  unfold clearOldCache. rewrite scanOld_spec. by rewrite removeAll_spec.
Qed.

Lemma clearCache_spec entityPrefix w :
  clearCache entityPrefix w =
    (length (ownKeys w),
     set_localStorage (deleteAll (ownKeys w))
       (addRemoveItems (length (ownKeys w))
          (addGetItems (if noPrefix entityPrefix then 0 else length (ownKeys w)) w))).
Proof.
  unfold clearCache. rewrite scanAll_spec. by rewrite removeAll_spec.
Qed.

Lemma clearOldCache_lookup now w k :
  localStorage (clearOldCache now w).2 !! k =
    if namespaced k && tooOld now (localStorage w !! k) then None
    else localStorage w !! k.
Proof.
  rewrite clearOldCache_spec; simpl. rewrite deleteAll_lookup.
  destruct (decide (k ∈ oldKeys now w)) as [Hin|Hout].
  - apply list_elem_of_In, filter_In in Hin as [_ ->]. done.
  - destruct (namespaced k && tooOld now (localStorage w !! k)) eqn:Hk; [|done].
    destruct (localStorage w !! k) as [v|] eqn:Hv; [|done].
    exfalso; apply Hout. apply list_elem_of_In, filter_In. split.
    + apply list_elem_of_In, keys_elem. by exists v.
    + by rewrite Hv.
Qed.

Lemma clearCache_lookup entityPrefix w k :
  localStorage (clearCache entityPrefix w).2 !! k =
    if namespaced k then None else localStorage w !! k.
Proof.
  rewrite clearCache_spec; simpl. rewrite deleteAll_lookup.
  destruct (decide (k ∈ ownKeys w)) as [Hin|Hout].
  - apply list_elem_of_In, filter_In in Hin as [_ ->]. done.
  - destruct (namespaced k) eqn:Hk; [|done].
    destruct (localStorage w !! k) as [v|] eqn:Hv; [|done].
    exfalso; apply Hout. apply list_elem_of_In, filter_In. split; [|done].
    apply list_elem_of_In, keys_elem. by exists v.
Qed.

(** ** Key Deriver and TTL Resolver *)

Lemma TTL_CONFIG_positive entity ms :
  ownProperty TTL_CONFIG entity = Some ms → 0 < ms.
Proof.
  unfold TTL_CONFIG; cbn [ownProperty].
  repeat (destruct (String.eqb _ entity); [intros [= <-]; lia|]).
  done.
Qed.

Lemma getTTL_table entity :
  inPrototype entity = false → getTTL entity = Millis (ttlFor entity).
Proof.
  intros Hproto. unfold getTTL, TTL_CONFIG_get, ttlFor.
  destruct (ownProperty TTL_CONFIG entity) as [ms|] eqn:Hown.
  - apply TTL_CONFIG_positive in Hown. simpl.
    destruct (Z.eqb_spec ms 0); [lia|done].
  - by rewrite Hproto.
Qed.

Lemma upToAmp_value v rest :
  ampFree v = true → atBoundary rest = true → upToAmp (v ++ rest) = v.
Proof.
  intros Hv Hrest. induction v as [|c v IH]; simpl in *.
  - destruct rest as [|c rest]; [done|]. simpl in *. by rewrite Hrest.
  - apply andb_true_iff in Hv as [Hc Hv].
    destruct (Ascii.eqb c "&"); [done|]. by rewrite IH.
Qed.

Lemma append_empty (s : string) : s ++ "" = s.
Proof.
  induction s as [|c s IH]; [done|].
  change (String c (s ++ "") = String c s). by f_equal.
Qed.

Lemma matchEntity_skip pre tail :
  unmatched pre tail = true → matchEntity (pre ++ tail) = matchEntity tail.
Proof.
  induction pre as [|c pre IH]; [done|].
  intros H. cbn [unmatched] in H. apply andb_true_iff in H as [Hhere Hrest].
  specialize (IH Hrest).
  change (String c pre ++ tail) with (String c (pre ++ tail)) in *.
  remember (String c (pre ++ tail)) as url eqn:Hurl.
  destruct url as [|c' url']; [done|].
  injection Hurl as -> ->.
  cbn [matchEntity].
  destruct (afterPrefix "entity=" (String c (pre ++ tail))) as [rest|]; [|done].
  apply String.eqb_eq in Hhere. by rewrite Hhere.
Qed.

(** C7, as amended: for every call of cachedFetch the effective TTL (line
    109) is the customTTL of the options when one is supplied and it is not
    zero; otherwise it is the TTL_CONFIG entry of the URL's entity class,
    or the default entry of 30 minutes when the class is not in the table.
    (Entity classes named like a property of Object.prototype are left
    aside.) *)
Theorem effective_ttl (url : string) (options : Options) :
  inPrototype (getEntityFromUrl url) = false →
  effectiveTTL (customTTL options) (getEntityFromUrl url) =
    match customTTL options with
    | Some ms => if (ms =? 0)%Z then Millis (ttlFor (getEntityFromUrl url)) else Millis ms
    | None => Millis (ttlFor (getEntityFromUrl url))
    end.
Proof.
  intros Hproto. unfold effectiveTTL.
  destruct (customTTL options) as [ms|]; [|by apply getTTL_table].
  destruct (ms =? 0)%Z; simpl; [by apply getTTL_table|done].
Qed.

Lemma effective_ttl_witness :
  effectiveTTL (Some 5000) "ruang" = Millis 5000
  ∧ effectiveTTL None "ruang" = Millis (6 * 60 * 60 * 1000)
  ∧ effectiveTTL None "bilik" = Millis (30 * 60 * 1000).
Proof.
  split; [|split].
  - exact (effective_ttl "x.cgi?entity=ruang&kod_fakulti=fsksm"
             (mkOptions false false (Some 5000) false) eq_refl).
  - exact (effective_ttl "x.cgi?entity=ruang&kod_fakulti=fsksm" defaults eq_refl).
  - exact (effective_ttl "x.cgi?entity=bilik" defaults eq_refl).
Defined.

(** An entity class named like a property of Object.prototype finds that
    property in TTL_CONFIG: the TTL is then no number, and no entry is
    ever valid under it. *)
Remark inherited_ttl :
  getEntityFromUrl "x.cgi?entity=toString" = "toString"
  ∧ getTTL "toString" = Inherited "toString"
  ∧ ∀ now cacheEntry, isCacheValid now cacheEntry (getTTL "toString") = false.
Proof.
  split; [reflexivity|]. split; [reflexivity|].
  intros now cacheEntry. unfold isCacheValid.
  by destruct (timestamp cacheEntry =? 0)%Z.
Qed.

(** C7, as stated, fails: a customTTL of 0 is supplied, and the effective
    TTL is the six hours of the table. *)
Lemma customTTL_zero_is_ignored :
  let options := mkOptions false false (Some 0) false in
  let url := "x.cgi?entity=ruang&kod_fakulti=fsksm" in
  effectiveTTL (customTTL options) (getEntityFromUrl url) = Millis (6 * 60 * 60 * 1000)
  ∧ effectiveTTL (customTTL options) (getEntityFromUrl url) ≠ Millis 0.
Proof. split; [reflexivity|discriminate]. Qed.

(** C8, as amended: getEntityFromUrl returns the value of the entity
    parameter, whether or not the TTL table knows it: the run of characters
    other than & that follows the first entity= with a non-empty run; it
    returns 'default' when entity= occurs nowhere with such a run. *)
Theorem entity_of_url (pre value rest : string) :
  (unmatched pre ("entity=" ++ value ++ rest) = true →
   value ≠ "" → ampFree value = true → atBoundary rest = true →
   getEntityFromUrl (pre ++ "entity=" ++ value ++ rest) = value)
  ∧ (unmatched pre "" = true → getEntityFromUrl pre = "default").
Proof.
  split.
  - intros Hpre Hne Hv Hrest. unfold getEntityFromUrl.
    rewrite (matchEntity_skip _ _ Hpre).
    change ("entity=" ++ value ++ rest) with
      (String "e" (String "n" (String "t" (String "i" (String "t" (String "y"
        (String "=" (value ++ rest)))))))).
    cbn [matchEntity afterPrefix Ascii.eqb Bool.eqb].
    rewrite (upToAmp_value _ _ Hv Hrest).
    destruct value; done.
  - intros Hpre. unfold getEntityFromUrl.
    pose proof (matchEntity_skip pre "" Hpre) as H.
    rewrite append_empty in H. by rewrite H.
Qed.

Lemma entity_of_url_witness :
  getEntityFromUrl
    "http://web.fc.utm.my/ttms/web_man_webservice_json.cgi?entity=ruang&kod_fakulti=fsksm"
    = "ruang"
  ∧ getEntityFromUrl "http://web.fc.utm.my/ttms/web_man_webservice_json.cgi" = "default".
Proof.
  split.
  - apply (entity_of_url "http://web.fc.utm.my/ttms/web_man_webservice_json.cgi?"
             "ruang" "&kod_fakulti=fsksm"); [reflexivity|discriminate|reflexivity..].
  - apply (entity_of_url "http://web.fc.utm.my/ttms/web_man_webservice_json.cgi" "" "").
    reflexivity.
Defined.

(** C8, as stated, fails: the entity class bilik is not in the TTL table,
    and getEntityFromUrl returns it, not 'default'. *)
Lemma unrecognized_entity_is_returned :
  ownProperty TTL_CONFIG "bilik" = None
  ∧ getEntityFromUrl "x.cgi?entity=bilik&sesi=2025" = "bilik"
  ∧ getEntityFromUrl "x.cgi?entity=bilik&sesi=2025" ≠ "default".
Proof. split; [reflexivity|split; [reflexivity|discriminate]]. Qed.

(** ** Frame properties of the orchestrator *)

(** C6: a call with skipCache issues one fetch and touches nothing else:
    tiers, registry, statistics and breaker are as before, and
    localStorage is not called; when the response is in, the promise of
    the call settles with the parsed body (or the failure), again with
    nothing else touched, whatever the cache holds for the key. *)
Theorem skipCache_bypasses_the_cache (url : string) (options : Options) (now : Z) (w : World) :
  skipCache options = true →
  let p := (cachedFetch url options now w).1 in
  let w1 := (cachedFetch url options now w).2 in
  sameCache w w1
  ∧ calls w1 = mkCalls (S (fetchCalls (calls w))) (getItemCalls (calls w))
                 (setItemCalls (calls w)) (removeItemCalls (calls w))
  ∧ network w1 = <[p := AwaitDirect url]> (network w)
  ∧ ∀ (w2 : World) (result : NetResult) (later : Z),
      network w2 !! p = Some (AwaitDirect url) →
      let w3 := respond p result later w2 in
      sameCache w2 w3 ∧ calls w3 = calls w2
      ∧ promises w3 !! p = Some (parsed result).
Proof.
  intros Hskip. unfold cachedFetch, newPromise. rewrite Hskip. cbn.
  split; [by repeat split|]. split; [done|]. split; [done|].
  intros w2 result later Hpending. unfold respond. rewrite Hpending. cbn.
  split; [by repeat split|]. split; [done|].
  rewrite lookup_insert_eq. by destruct result as [[v|raw]|].
Qed.

Lemma skipCache_bypasses_the_cache_witness :
  let w := boot Sample.storage Sample.roomy in
  let w1 := (cachedFetch Sample.pelajar Sample.skipping 2000 w).2 in
  sameCache w w1
  ∧ fetchCalls (calls w1) = 1%nat
  ∧ getItemCalls (calls w1) = 0%nat
  ∧ promises (respond 0 (Arrived (JsonText (JStr "new list"))) 3000 w1) !! 0%nat
    = Some (Fulfilled (JStr "new list")).
Proof.
  pose proof (skipCache_bypasses_the_cache Sample.pelajar Sample.skipping 2000
                (boot Sample.storage Sample.roomy) eq_refl) as (Hsame & Hcalls & Hnet & Hlater).
  split; [exact Hsame|]. split; [by rewrite Hcalls|]. split; [by rewrite Hcalls|].
  apply (Hlater _ (Arrived (JsonText (JStr "new list"))) 3000). reflexivity.
Defined.

(** C10, as amended: clearCache removes the namespaced entries of
    localStorage and returns how many there were; the memory tier (and the
    registry, the statistics, the breaker) are as before.  So a call right
    after it, with neither skipCache nor forceRefresh, whose key has a
    memory entry valid under the effective TTL, is answered with that
    entry's data without any call to the host (no fetch, no localStorage
    read) when no ticket is registered for the key.  When one is, the call
    joins that fetch (lines 113-115 come before the memory tier): it makes
    no call to the host either, but it is not answered by the memory
    tier. *)
Theorem clearCache_spares_memory (entityPrefix : option string) (w : World) :
  let count := (clearCache entityPrefix w).1 in
  let w1 := (clearCache entityPrefix w).2 in
  count = length (ownKeys w)
  ∧ (∀ k, localStorage w1 !! k = if namespaced k then None else localStorage w !! k)
  ∧ memoryCache w1 = memoryCache w ∧ inflight w1 = inflight w
  ∧ stats w1 = stats w ∧ storageQuotaExceeded w1 = storageQuotaExceeded w
  ∧ network w1 = network w
  ∧ (∀ (url : string) (options : Options) (now : Z) (memoryEntry : CacheEntry),
      skipCache options = false → forceRefresh options = false →
      inflight w !! getCacheKey url = None →
      memoryCache w !! getCacheKey url = Some memoryEntry →
      isCacheValid now memoryEntry
        (effectiveTTL (customTTL options) (getEntityFromUrl url)) = true →
      let p := (cachedFetch url options now w1).1 in
      let w2 := (cachedFetch url options now w1).2 in
      promises w2 !! p = Some (Fulfilled (data memoryEntry))
      ∧ network w2 = network w1 ∧ calls w2 = calls w1
      ∧ stats w2 = mkStats (S (hits (stats w1))) (misses (stats w1)))
  ∧ ∀ (url : string) (options : Options) (now : Z) (ticket : nat),
      skipCache options = false → forceRefresh options = false →
      inflight w !! getCacheKey url = Some ticket →
      let p := (cachedFetch url options now w1).1 in
      let w2 := (cachedFetch url options now w1).2 in
      adopted w2 !! p = Some ticket ∧ promises w2 = promises w1
      ∧ network w2 = network w1 ∧ calls w2 = calls w1 ∧ stats w2 = stats w1.
Proof.
  cbn zeta. split; [by rewrite clearCache_spec|].
  split; [apply clearCache_lookup|].
  rewrite clearCache_spec. cbn.
  do 5 (split; [done|]).
  split.
  - intros url options now memoryEntry Hskip Hforce Hflight Hmem Hvalid.
    unfold cachedFetch, newPromise. rewrite Hskip, Hforce. cbn.
    rewrite Hflight. unfold readCache. cbn. rewrite Hmem, Hvalid. cbn.
    by rewrite lookup_insert_eq.
  - intros url options now ticket Hskip Hforce Hflight.
    unfold cachedFetch, newPromise. rewrite Hskip, Hforce. cbn.
    rewrite Hflight. cbn. by rewrite lookup_insert_eq.
Qed.

Lemma clearCache_spares_memory_witness :
  let w := (respond 1 (Arrived (JsonText (JStr "rooms"))) 3000
              (cachedFetch Sample.ruang defaults 2000
                 (boot Sample.storage Sample.roomy)).2) in
  let w1 := (clearCache None w).2 in
  let p := (cachedFetch Sample.ruang defaults 4000 w1).1 in
  let w2 := (cachedFetch Sample.ruang defaults 4000 w1).2 in
  let v := (cachedFetch Sample.ruang (mkOptions false false (Some 1) false) 4000 w).2 in
  let v1 := (clearCache None v).2 in
  let q := (cachedFetch Sample.ruang defaults 4001 v1).1 in
  let v2 := (cachedFetch Sample.ruang defaults 4001 v1).2 in
  (clearCache None w).1 = 2%nat
  ∧ localStorage w1 !! Sample.ruangKey = None
  ∧ promises w2 !! p = Some (Fulfilled (JStr "rooms"))
  ∧ network w2 = network w1
  ∧ adopted v2 !! q = Some 3%nat
  ∧ calls v2 = calls v1.
Proof.
  set (w := respond 1 (Arrived (JsonText (JStr "rooms"))) 3000
              (cachedFetch Sample.ruang defaults 2000
                 (boot Sample.storage Sample.roomy)).2).
  pose proof (clearCache_spares_memory None w)
    as (Hcount & Hgone & _ & _ & _ & _ & _ & Hserved & _).
  split; [rewrite Hcount; vm_compute; reflexivity|].
  split; [by rewrite Hgone|].
  destruct (Hserved Sample.ruang defaults 4000 (mkEntry 3000 (JStr "rooms")))
    as (Hp & Hnet & _); try reflexivity.
  split; [exact Hp|]. split; [exact Hnet|].
  pose proof (clearCache_spares_memory None
                (cachedFetch Sample.ruang (mkOptions false false (Some 1) false) 4000 w).2)
    as (_ & _ & _ & _ & _ & _ & _ & _ & Hjoined).
  destruct (Hjoined Sample.ruang defaults 4001 3%nat) as (Hq & _ & _ & Hcalls & _);
    try reflexivity.
  split; [exact Hq|exact Hcalls].
Defined.

(** C10, as stated, fails: the memory tier holds an entry for the room
    list that is valid under the TTL of the table, and a call with a TTL
    of one millisecond has a fetch pending for the key.  clearCache runs.
    The next call of cachedFetch(url) is not answered by the memory tier:
    it joins the pending fetch, and when the network fails it is rejected
    with the failure, the valid memory entry notwithstanding. *)
Lemma valid_memory_entry_is_not_served :
  let w := run (boot Sample.storage Sample.roomy)
             [Call Sample.ruang defaults 2000;
              Respond 1 (Arrived (JsonText (JStr "rooms"))) 3000;
              Call Sample.ruang (mkOptions false false (Some 1) false) 4000;
              ClearCache None] in
  let p := (cachedFetch Sample.ruang defaults 4001 w).1 in
  let w1 := (cachedFetch Sample.ruang defaults 4001 w).2 in
  let w2 := respond 3 Unreachable 5000 w1 in
  memoryCache w !! Sample.ruangKey = Some (mkEntry 3000 (JStr "rooms"))
  ∧ isCacheValid 4001 (mkEntry 3000 (JStr "rooms"))
      (effectiveTTL None (getEntityFromUrl Sample.ruang)) = true
  ∧ delivered w1 p = None
  ∧ stats w1 = stats w
  ∧ delivered w2 p = Some (Rejected NetworkFailure).
Proof. vm_compute. by repeat split. Qed.

(** ** What a call can start *)

(** A call without skipCache starts at most one fetch: the fetch of the
    miss path, awaited by the call itself, or the background refresh of a
    stale durable entry that the call has just served. *)
Lemma call_starts (url : string) (options : Options) (now : Z) (w : World)
    (ticket : nat) (waiting : Awaiting) :
  skipCache options = false →
  network (cachedFetch url options now w).2 !! ticket = Some waiting →
  network w !! ticket ≠ Some waiting →
  let p := (cachedFetch url options now w).1 in
  waiting = AwaitFetch url (getCacheKey url) p
  ∨ ∃ stale, waiting = AwaitRefresh url (getCacheKey url) stale
      ∧ forceRefresh options = false
      ∧ staleWhileRevalidate options = true
      ∧ localStorage w !! getCacheKey url = Some (EntryText stale)
      ∧ promises (cachedFetch url options now w).2 !! p = Some (Fulfilled (data stale)).
Proof.
  intros Hskip. unfold cachedFetch, readCache, readDurable, newPromise,
    localStorage_getItem. rewrite Hskip. cbn.
  repeat (case_match; simplify_eq/=); intros Hnew Hold; try done.
  all: try (apply lookup_insert_Some in Hnew as [[<- <-]|[_ Hnew]]; [|done]).
  all: try (left; reflexivity).
  all: right; eexists; repeat split; try done; try by rewrite lookup_insert_eq.
  all: try by destruct (forceRefresh options).
  all: try by destruct (staleWhileRevalidate options).
  all: by destruct s; simplify_eq/=.
Qed.

(** ** Failures of the fetch *)

Lemma respond_failed_fetch (w : World) (ticket caller : nat) (url cacheKey : string)
    (result : NetResult) (error : Failure) (later : Z) :
  network w !! ticket = Some (AwaitFetch url cacheKey caller) →
  fetchBody cacheKey result later w = (Rejected error, w) →
  let w' := respond ticket result later w in
  memoryCache w' = memoryCache w ∧ localStorage w' = localStorage w
  ∧ setItemCalls (calls w') = setItemCalls (calls w)
  ∧ promises w' !! caller = Some (fallback w cacheKey error)
  ∧ (ticket ≠ caller → promises w' !! ticket = Some (Rejected error)).
Proof.
  intros Hpending Hbody. unfold respond. rewrite Hpending.
  assert (Hbody' : fetchBody cacheKey result later (set_network (λ n, delete ticket n) w)
                   = (Rejected error, set_network (λ n, delete ticket n) w)).
  { unfold fetchBody in *. destruct result as [text|]; [|by simplify_eq].
    destruct (JSON_parse text); simplify_eq/=. done. }
  rewrite Hbody'. unfold staleFallback, localStorage_getItem, fallback. cbn.
  destruct (localStorage w !! cacheKey) as [[e|raw]|]; cbn;
    [|destruct (String.eqb raw "")|]; cbn;
    (do 3 (split; [done|])); (split; [by rewrite lookup_insert_eq|]);
    intros Hne; rewrite lookup_insert_ne by done; by rewrite lookup_insert_eq.
Qed.

Lemma respond_failed_refresh (w : World) (ticket : nat) (url cacheKey : string)
    (stale : CacheEntry) (result : NetResult) (later : Z) :
  network w !! ticket = Some (AwaitRefresh url cacheKey stale) →
  (result = Unreachable ∨ ∃ raw, result = Arrived (BadText raw)) →
  let w' := respond ticket result later w in
  memoryCache w' = memoryCache w ∧ localStorage w' = localStorage w
  ∧ setItemCalls (calls w') = setItemCalls (calls w)
  ∧ promises w' !! ticket = Some (Fulfilled (data stale)).
Proof.
  intros Hpending Hresult. unfold respond. rewrite Hpending.
  destruct Hresult as [->|[raw ->]]; cbn; by rewrite lookup_insert_eq.
Qed.




(** ** Quota Guard *)

Lemma hostChange_refl w : hostChange w w.
Proof. by repeat split. Qed.

Lemma hostChange_trans w1 w2 w3 : hostChange w1 w2 → hostChange w2 w3 → hostChange w1 w3.
Proof.
  unfold hostChange. intros (?&?&?&?&?&?&?&?) (?&?&?&?&?&?&?&?).
  repeat split; congruence.
Qed.

Lemma setItem_hostChange key value w : hostChange w (localStorage_setItem key value w).2.
Proof.
  unfold localStorage_setItem. cbn.
  destruct (setItemThrows w (localStorage w) key value); by repeat split.
Qed.

Lemma clearOldCache_hostChange now w : hostChange w (clearOldCache now w).2.
Proof. rewrite clearOldCache_spec. by repeat split. Qed.

Lemma clearCache_hostChange entityPrefix w : hostChange w (clearCache entityPrefix w).2.
Proof. rewrite clearCache_spec. by repeat split. Qed.

Lemma persist_hostChange key e now w : hostChange w (persist key e now w).
Proof.
  unfold persist. destruct (storageQuotaExceeded w); [apply hostChange_refl|].
  pose proof (setItem_hostChange key (JSON_stringify e) w) as H1.
  destruct (localStorage_setItem key (JSON_stringify e) w) as [[[]|] w1]; cbn in H1; try done.
  pose proof (clearOldCache_hostChange now w1) as H2.
  destruct (clearOldCache now w1) as [cleared w2]; cbn in H2.
  pose proof (setItem_hostChange key (JSON_stringify e) w2) as H3.
  destruct (localStorage_setItem key (JSON_stringify e) w2) as [[e2|] w3]; cbn in H3.
  - eapply hostChange_trans; [exact H1|]. eapply hostChange_trans; [exact H2|].
    eapply hostChange_trans; [exact H3|]. by repeat split.
  - eapply hostChange_trans; [exact H1|]. eapply hostChange_trans; [exact H2|]. exact H3.
Qed.

Lemma persist_latched key e now w :
  storageQuotaExceeded w = true → storageQuotaExceeded (persist key e now w) = true.
Proof. intros H. unfold persist. by rewrite H. Qed.

Lemma persist_set_network f key e now w :
  persist key e now (set_network f w) = set_network f (persist key e now w).
Proof.
  unfold persist, localStorage_setItem. cbn.
  destruct (storageQuotaExceeded w); [done|].
  destruct (setItemThrows w (localStorage w) key (JSON_stringify e)) as [[]|]; try done.
  rewrite !clearOldCache_spec. cbn.
  unfold oldKeys, ownKeys, localStorage_keys. cbn.
  by destruct (setItemThrows w _ key (JSON_stringify e)).
Qed.

Lemma persist_set_memoryCache f key e now w :
  persist key e now (set_memoryCache f w) = set_memoryCache f (persist key e now w).
Proof.
  unfold persist, localStorage_setItem. cbn.
  destruct (storageQuotaExceeded w); [done|].
  destruct (setItemThrows w (localStorage w) key (JSON_stringify e)) as [[]|]; try done.
  rewrite !clearOldCache_spec. cbn.
  unfold oldKeys, ownKeys, localStorage_keys. cbn.
  by destruct (setItemThrows w _ key (JSON_stringify e)).
Qed.

(** The response to a fetch of the miss path, when the body is JSON. *)
Lemma respond_fetched (w : World) (ticket caller : nat) (url cacheKey : string)
    (value : JSON) (later : Z) :
  network w !! ticket = Some (AwaitFetch url cacheKey caller) →
  let cacheEntry := mkEntry later value in
  let stored := persist cacheKey cacheEntry later w in
  let w' := respond ticket (Arrived (JsonText value)) later w in
  memoryCache w' = <[cacheKey := cacheEntry]> (memoryCache w)
  ∧ localStorage w' = localStorage stored
  ∧ storageQuotaExceeded w' = storageQuotaExceeded stored
  ∧ calls w' = calls stored
  ∧ promises w' = <[caller := Fulfilled value]> (<[ticket := Fulfilled value]> (promises w))
  ∧ network w' = delete ticket (network w)
  ∧ inflight w' = delete cacheKey (inflight w)
  ∧ adopted w' = adopted w ∧ fresh w' = fresh w ∧ stats w' = stats w.
Proof.
  intros Hpending. cbn zeta. unfold respond. rewrite Hpending.
  unfold fetchBody. cbn [JSON_parse].
  rewrite persist_set_memoryCache, persist_set_network. cbn.
  destruct (persist_hostChange cacheKey (mkEntry later value) later w)
    as (Hm & Hi & Hs & _ & Hn & Hp & Ha & Hf).
  rewrite Hm, Hi, Hs, Hn, Hp, Ha, Hf. by repeat split.
Qed.

(** The response to a background refresh, when the body is JSON: the
    write to localStorage is attempted whatever the breaker says, and a
    failure of it is ignored. *)
Lemma respond_refreshed (w : World) (ticket : nat) (url cacheKey : string)
    (stale : CacheEntry) (value : JSON) (later : Z) :
  network w !! ticket = Some (AwaitRefresh url cacheKey stale) →
  let newEntry := mkEntry later value in
  let w' := respond ticket (Arrived (JsonText value)) later w in
  memoryCache w' = <[cacheKey := newEntry]> (memoryCache w)
  ∧ localStorage w' =
      match setItemThrows w (localStorage w) cacheKey (EntryText newEntry) with
      | Some _ => localStorage w
      | None => <[cacheKey := EntryText newEntry]> (localStorage w)
      end
  ∧ storageQuotaExceeded w' = storageQuotaExceeded w
  ∧ setItemCalls (calls w') = S (setItemCalls (calls w))
  ∧ removeItemCalls (calls w') = removeItemCalls (calls w)
  ∧ promises w' = <[ticket := Fulfilled value]> (promises w)
  ∧ network w' = delete ticket (network w)
  ∧ inflight w' = delete cacheKey (inflight w)
  ∧ adopted w' = adopted w ∧ fresh w' = fresh w ∧ stats w' = stats w.
Proof.
  intros Hpending. cbn zeta. unfold respond. rewrite Hpending.
  unfold refreshBody, localStorage_setItem. cbn.
  destruct (setItemThrows w (localStorage w) cacheKey _); by repeat split.
Qed.

Lemma cachedFetch_breaker url options now w :
  storageQuotaExceeded (cachedFetch url options now w).2 = storageQuotaExceeded w
  ∧ localStorage (cachedFetch url options now w).2 = localStorage w
  ∧ setItemThrows (cachedFetch url options now w).2 = setItemThrows w
  ∧ setItemCalls (calls (cachedFetch url options now w).2) = setItemCalls (calls w).
Proof.
  unfold cachedFetch, readCache, readDurable, newPromise, localStorage_getItem.
  repeat (case_match; simplify_eq/=); done.
Qed.

Lemma respond_latched ticket result later w :
  storageQuotaExceeded w = true →
  storageQuotaExceeded (respond ticket result later w) = true.
Proof.
  intros Hset. unfold respond.
  destruct (network w !! ticket) as [[url|url cacheKey stale|url cacheKey caller]|] eqn:Hpending;
    [done| |
     |done].
  - unfold refreshBody, localStorage_setItem.
    destruct result as [[value|raw]|]; cbn; try done.
    by destruct (setItemThrows w (localStorage w) cacheKey _).
  - destruct result as [[value|raw]|].
    + destruct (respond_fetched w ticket caller url cacheKey value later Hpending)
        as (_ & _ & Hflag & _).
      unfold respond in Hflag. rewrite Hpending in Hflag. rewrite Hflag.
      by apply persist_latched.
    + unfold fetchBody, staleFallback, localStorage_getItem. cbn.
      repeat (case_match; simplify_eq/=); done.
    + unfold fetchBody, staleFallback, localStorage_getItem. cbn.
      repeat (case_match; simplify_eq/=); done.
Qed.

Lemma exec_latched a w :
  storageQuotaExceeded w = true → storageQuotaExceeded (exec w a) = true.
Proof.
  intros Hset. destruct a as [url options now|ticket result now|entityPrefix|now|];
    unfold exec.
  - by rewrite (proj1 (cachedFetch_breaker url options now w)).
  - by apply respond_latched.
  - by rewrite clearCache_spec.
  - by rewrite clearOldCache_spec.
  - done.
Qed.

Lemma run_latched script w :
  storageQuotaExceeded w = true → storageQuotaExceeded (run w script) = true.
Proof.
  revert w; induction script as [|a script IH]; intros w Hset; [done|].
  cbn. apply IH. by apply exec_latched.
Qed.

(** C5, as amended: on the miss path (forceRefresh included) the durable
    write goes through the guard at lines 203-223.  When the first setItem
    fails for lack of room, every namespaced entry older than 24 hours (and
    every namespaced value that does not parse) is removed, setItem is
    called once more, and if that fails too the breaker is set; it is never
    cleared again, and while it is set this path calls setItem no more.
    Another kind of failure is swallowed after one attempt.  Whatever the
    store does, the caller gets the fetched value.  The background refresh
    at lines 149-163 calls setItem once and ignores a failure: no eviction,
    no retry, no breaker; its promise gets the fetched value too. *)
Theorem quota_guard (cacheKey : string) (cacheEntry : CacheEntry) (now : Z) (w : World) :
  let w' := persist cacheKey cacheEntry now w in
  (storageQuotaExceeded w = false →
   setItemThrows w (localStorage w) cacheKey (EntryText cacheEntry) = Some QuotaExceededError →
   (∀ k, swept now w !! k =
           if namespaced k && tooOld now (localStorage w !! k) then None
           else localStorage w !! k)
   ∧ setItemCalls (calls w') = S (S (setItemCalls (calls w)))
   ∧ match setItemThrows w (swept now w) cacheKey (EntryText cacheEntry) with
     | None => localStorage w' = <[cacheKey := EntryText cacheEntry]> (swept now w)
               ∧ storageQuotaExceeded w' = false
     | Some _ => localStorage w' = swept now w ∧ storageQuotaExceeded w' = true
     end)
  ∧ (storageQuotaExceeded w = false →
     setItemThrows w (localStorage w) cacheKey (EntryText cacheEntry) = Some OtherError →
     localStorage w' = localStorage w ∧ storageQuotaExceeded w' = false
     ∧ setItemCalls (calls w') = S (setItemCalls (calls w)))
  ∧ (storageQuotaExceeded w = true →
     w' = w ∧ ∀ script, storageQuotaExceeded (run w script) = true)
  ∧ (∀ ticket url caller value,
       network w !! ticket = Some (AwaitFetch url cacheKey caller) →
       let answered := respond ticket (Arrived (JsonText value)) now w in
       promises answered !! caller = Some (Fulfilled value)
       ∧ localStorage answered = localStorage (persist cacheKey (mkEntry now value) now w)
       ∧ storageQuotaExceeded answered
         = storageQuotaExceeded (persist cacheKey (mkEntry now value) now w))
  ∧ (∀ ticket url stale value,
       network w !! ticket = Some (AwaitRefresh url cacheKey stale) →
       setItemThrows w (localStorage w) cacheKey (EntryText (mkEntry now value)) ≠ None →
       let answered := respond ticket (Arrived (JsonText value)) now w in
       promises answered !! ticket = Some (Fulfilled value)
       ∧ localStorage answered = localStorage w
       ∧ storageQuotaExceeded answered = storageQuotaExceeded w
       ∧ setItemCalls (calls answered) = S (setItemCalls (calls w))
       ∧ removeItemCalls (calls answered) = removeItemCalls (calls w)).
Proof.
  cbn zeta. split; [|split; [|split; [|split]]].
  - intros Hopen Hfull. split; [intros k; apply clearOldCache_lookup|].
    unfold persist, JSON_stringify, localStorage_setItem. rewrite Hopen. cbn.
    rewrite Hfull. unfold swept. rewrite !clearOldCache_spec. cbn.
    unfold oldKeys, ownKeys, localStorage_keys. cbn.
    match goal with
    | |- context [setItemThrows w (deleteAll ?ks ?st) cacheKey ?v] =>
        destruct (setItemThrows w (deleteAll ks st) cacheKey v)
    end; cbn; by repeat split.
  - intros Hopen Hother. unfold persist, JSON_stringify. rewrite Hopen.
    unfold localStorage_setItem. cbn. rewrite Hother. by repeat split.
  - intros Hset. split; [unfold persist; by rewrite Hset|].
    intros script. by apply run_latched.
  - intros ticket url caller value Hpending.
    destruct (respond_fetched w ticket caller url cacheKey value now Hpending)
      as (_ & Hstore & Hflag & _ & Hpromises & _).
    split; [|done]. rewrite Hpromises. apply lookup_insert_eq.
  - intros ticket url stale value Hpending Hthrows.
    destruct (respond_refreshed w ticket url cacheKey stale value now Hpending)
      as (_ & Hstore & Hflag & Hset & Hremove & Hpromises & _).
    split; [rewrite Hpromises; apply lookup_insert_eq|].
    split; [|done]. rewrite Hstore.
    by destruct (setItemThrows w (localStorage w) cacheKey _).
Qed.

Lemma quota_guard_witness :
  let now := 1000 + 25 * Sample.hour in
  let w := boot Sample.storage (Sample.roomFor 2) in
  let w' := persist Sample.ruangKey (mkEntry now (JStr "rooms")) now w in
  swept now w !! Sample.pelajarKey = None
  ∧ setItemCalls (calls w') = 2%nat
  ∧ localStorage w' !! Sample.ruangKey = Some (EntryText (mkEntry now (JStr "rooms")))
  ∧ storageQuotaExceeded w' = false.
Proof.
  destruct (quota_guard Sample.ruangKey (mkEntry (1000 + 25 * Sample.hour) (JStr "rooms"))
              (1000 + 25 * Sample.hour) (boot Sample.storage (Sample.roomFor 2)))
    as (Hfull & _).
  destruct (Hfull eq_refl eq_refl) as (Hswept & Hcalls & Hretry).
  split; [by rewrite Hswept|]. split; [exact Hcalls|].
  change (setItemThrows _ _ _ _) with (@None DOMException) in Hretry.
  destruct Hretry as [Hstore Hflag].
  split; [|exact Hflag]. rewrite Hstore. apply lookup_insert_eq.
Defined.

(** C5, as stated, fails: the write of a background refresh is refused for
    lack of room, and the entry that is 25 hours old stays in localStorage,
    setItem is not called again, and the breaker stays open. *)
Lemma refresh_write_failure_is_ignored :
  let now := 1000 + 25 * Sample.hour in
  let w := boot Sample.storage Sample.full in
  let w1 := (cachedFetch Sample.pelajar Sample.revalidating now w).2 in
  let w2 := respond 1 (Arrived (JsonText (JStr "new list"))) (now + 5) w1 in
  network w1 !! 1%nat
    = Some (AwaitRefresh Sample.pelajar Sample.pelajarKey (mkEntry 1000 (JStr "old list")))
  ∧ setItemThrows w1 (localStorage w1) Sample.pelajarKey
      (EntryText (mkEntry (now + 5) (JStr "new list"))) = Some QuotaExceededError
  ∧ localStorage w2 !! Sample.pelajarKey = Some (EntryText (mkEntry 1000 (JStr "old list")))
  ∧ tooOld (now + 5) (localStorage w2 !! Sample.pelajarKey) = true
  ∧ setItemCalls (calls w2) = 1%nat
  ∧ removeItemCalls (calls w2) = 0%nat
  ∧ storageQuotaExceeded w2 = false.
Proof. vm_compute. by repeat split. Qed.

(** C2, evaluated where it fails: two refused writes set the breaker; a
    later background refresh still calls setItem, and localStorage takes
    the new entry. *)
Lemma breaker_ignored_by_background_refresh :
  let stale := 1000 + 31 * Sample.minute in
  let w := boot Sample.storage (Sample.roomFor 2) in
  let w1 := run w [Call Sample.ruang defaults 2000;
                   Respond 1 (Arrived (JsonText (JStr "rooms"))) 3000] in
  let w2 := run w1 [Call Sample.pelajar Sample.revalidating stale] in
  let w3 := run w2 [Respond 3 (Arrived (JsonText (JStr "new list"))) (stale + 5)] in
  setItemCalls (calls w1) = 2%nat
  ∧ storageQuotaExceeded w1 = true
  ∧ localStorage w1 !! Sample.ruangKey = None
  ∧ memoryCache w1 !! Sample.ruangKey = Some (mkEntry 3000 (JStr "rooms"))
  ∧ storageQuotaExceeded w3 = true
  ∧ setItemCalls (calls w3) = 3%nat
  ∧ localStorage w3 !! Sample.pelajarKey
    = Some (EntryText (mkEntry (stale + 5) (JStr "new list")))
  ∧ localStorage w3 !! Sample.pelajarKey ≠ localStorage w1 !! Sample.pelajarKey.
Proof. vm_compute. repeat split; done. Qed.

(** ** Shapes of the transitions *)

Ltac pick :=
  first [ solve [repeat (split || eexists); eauto; done]
        | solve [repeat (split || eexists); (done || (left; done) || (right; done))]
        | left; pick | right; pick ].

Lemma call_shape (url : string) (options : Options) (now : Z) (w : World) :
  let p := fresh w in
  let cacheKey := getCacheKey url in
  let w1 := (cachedFetch url options now w).2 in
  (cachedFetch url options now w).1 = p
  ∧ ((* direct, joined, or served from a tier *)
     (network w1 = network w ∨ (skipCache options = true
                                ∧ network w1 = <[p := AwaitDirect url]> (network w)))
     ∧ inflight w1 = inflight w ∧ fresh w1 = S p
     ∧ (promises w1 = promises w ∨ ∃ v, promises w1 = <[p := Fulfilled v]> (promises w))
     ∨ (* served stale, refresh started *)
     (∃ stale, network w1 = <[S p := AwaitRefresh url cacheKey stale]> (network w)
        ∧ promises w1 = <[p := Fulfilled (data stale)]> (promises w))
     ∧ inflight w !! cacheKey = None
     ∧ inflight w1 = <[cacheKey := S p]> (inflight w) ∧ fresh w1 = S (S p)
     ∨ (* miss *)
     network w1 = <[S p := AwaitFetch url cacheKey p]> (network w)
     ∧ promises w1 = promises w ∧ fresh w1 = S (S p)
     ∧ (forceRefresh options = true ∧ inflight w1 = inflight w
        ∨ inflight w !! cacheKey = None
          ∧ inflight w1 = <[cacheKey := S p]> (inflight w))).
Proof.
  unfold cachedFetch, readCache, readDurable, newPromise, localStorage_getItem, adopt.
  cbn zeta.
  destruct (forceRefresh options) eqn:Hforce, (skipCache options) eqn:Hskip;
    repeat (case_match; simplify_eq/=); (split; [done|]).
  all: pick.
Qed.

Lemma respond_idle ticket result later w :
  network w !! ticket = None → respond ticket result later w = w.
Proof. intros H. unfold respond. by rewrite H. Qed.

Lemma respond_shape (ticket : nat) (result : NetResult) (later : Z) (w : World)
    (waiting : Awaiting) :
  network w !! ticket = Some waiting →
  let w' := respond ticket result later w in
  network w' = delete ticket (network w) ∧ fresh w' = fresh w ∧ adopted w' = adopted w
  ∧ match waiting with
    | AwaitDirect _ =>
        inflight w' = inflight w
        ∧ promises w' = <[ticket := parsed result]> (promises w)
    | AwaitRefresh _ cacheKey stale =>
        inflight w' = delete cacheKey (inflight w)
        ∧ ∃ outcome, promises w' = <[ticket := outcome]> (promises w)
    | AwaitFetch _ cacheKey caller =>
        inflight w' = delete cacheKey (inflight w)
        ∧ ∃ answer,
            promises w' = <[caller := answer]> (<[ticket := fetched result]> (promises w))
            ∧ (localStorage w !! cacheKey = None → answer = fetched result)
    end.
Proof.
  intros Hpending.
  destruct waiting as [url|url cacheKey stale|url cacheKey caller].
  - cbn zeta. unfold respond. rewrite Hpending. cbn.
    repeat split. by destruct result as [[v|raw]|].
  - cbn zeta. unfold respond. rewrite Hpending.
    unfold refreshBody, localStorage_setItem.
    destruct result as [[v|raw]|]; cbn; [|by eauto 10..].
    destruct (setItemThrows w (localStorage w) cacheKey _); cbn; by eauto 10.
  - destruct result as [[value|raw]|].
    + destruct (respond_fetched w ticket caller url cacheKey value later Hpending)
        as (_ & _ & _ & _ & Hp & Hn & Hi & Ha & Hf & _).
      cbn zeta. do 4 (split; [done|]). exists (Fulfilled value). by split.
    + cbn zeta. unfold respond. rewrite Hpending.
      unfold fetchBody, staleFallback, localStorage_getItem. cbn.
      repeat (case_match; simplify_eq/=); repeat split; eexists; split; try done.
    + cbn zeta. unfold respond. rewrite Hpending.
      unfold fetchBody, staleFallback, localStorage_getItem. cbn.
      repeat (case_match; simplify_eq/=); repeat split; eexists; split; try done.
Qed.

(** ** Invariants of the event loop *)







Lemma tidy_boot storage throws : tidy (boot storage throws).
Proof. split; [by intros; cbn|]. intros t a Hta. cbn in Hta. by rewrite lookup_empty in Hta. Qed.

Lemma tidy_grow (w w' : World) :
  (fresh w ≤ fresh w')%nat →
  (∀ i, (fresh w' ≤ i)%nat → promises w' !! i = promises w !! i) →
  (∀ ticket waiting, network w' !! ticket = Some waiting →
     network w !! ticket = Some waiting
     ∨ (ticket < fresh w')%nat
       ∧ match waiting with
         | AwaitFetch _ _ caller => (caller < fresh w')%nat
         | _ => True
         end) →
  tidy w → tidy w'.
Proof.
  intros Hle Hprom Hnet [Hunused Hpending]. split.
  - intros i Hi. rewrite Hprom by done. apply Hunused. lia.
  - intros t a Hta. destruct (Hnet t a Hta) as [Hold|Hnew]; [|done].
    destruct (Hpending t a Hold) as [Ht Ha]. split; [lia|].
    destruct a; try done. lia.
Qed.

Lemma tidy_exec a w : tidy w → tidy (exec w a).
Proof.
  intros Htidy.
  destruct a as [url options now|ticket result now|entityPrefix|now|]; unfold exec.
  - destruct (call_shape url options now w) as (_ & Hshape). cbn zeta in Hshape.
    destruct Hshape as [(Hnet & _ & Hfresh & Hprom)
                       |[((stale & Hnet & Hprom) & _ & _ & Hfresh)
                        |(Hnet & Hprom & Hfresh & _)]];
      apply (tidy_grow w); try done; try (rewrite Hfresh; lia).
    + intros i Hi. rewrite Hfresh in Hi.
      destruct Hprom as [->|[v ->]]; [done|]. rewrite lookup_insert_ne; [done|lia].
    + intros t a Hta. destruct Hnet as [Hnet|[_ Hnet]]; rewrite Hnet in Hta; [by left|].
      apply lookup_insert_Some in Hta as [[<- <-]|[_ Hta]]; [|by left].
      right. split; [lia|done].
    + intros i Hi. rewrite Hfresh in Hi. rewrite Hprom. rewrite lookup_insert_ne; [done|lia].
    + intros t a Hta. rewrite Hnet in Hta.
      apply lookup_insert_Some in Hta as [[<- <-]|[_ Hta]]; [|by left].
      right. split; [lia|done].
    + intros i Hi. by rewrite Hprom.
    + intros t a Hta. rewrite Hnet in Hta.
      apply lookup_insert_Some in Hta as [[<- <-]|[_ Hta]]; [|by left].
      right. split; lia.
  - destruct (network w !! ticket) as [waiting|] eqn:Hpending;
      [|by rewrite respond_idle].
    destruct (respond_shape ticket result now w waiting Hpending)
      as (Hnet & Hfresh & _ & Hrest). cbn zeta in Hrest.
    destruct Htidy as [Hunused Hwaiting].
    destruct (Hwaiting ticket waiting Hpending) as [Hticket Hcaller].
    apply (tidy_grow w); [lia| |  |done].
    + intros i Hi. rewrite Hfresh in Hi.
      destruct waiting as [url|url cacheKey stale|url cacheKey caller].
      * destruct Hrest as [_ ->]. rewrite lookup_insert_ne; [done|lia].
      * destruct Hrest as [_ [outcome ->]]. rewrite lookup_insert_ne; [done|lia].
      * destruct Hrest as [_ (answer & -> & _)].
        rewrite !lookup_insert_ne; [done|lia..].
    + intros t a Hta. rewrite Hnet in Hta.
      apply lookup_delete_Some in Hta as [_ Hta]. by left.
  - destruct (clearCache_hostChange entityPrefix w) as (_ & _ & _ & _ & Hn & Hp & _ & Hf).
    apply (tidy_grow w); [lia| | |done].
    + intros i _. by rewrite Hp.
    + intros t a Hta. left. by rewrite <- Hn.
  - destruct (clearOldCache_hostChange now w) as (_ & _ & _ & _ & Hn & Hp & _ & Hf).
    apply (tidy_grow w); [lia| | |done].
    + intros i _. by rewrite Hp.
    + intros t a Hta. left. by rewrite <- Hn.
  - apply (tidy_grow w); try done. by left.
Qed.

Lemma tidy_run script w : tidy w → tidy (run w script).
Proof.
  revert w; induction script as [|a script IH]; intros w Htidy; [done|].
  cbn. apply IH. by apply tidy_exec.
Qed.

(** ** Concurrent calls for one URL *)







(** ** Forced refresh *)

(** C3, as amended: a call with forceRefresh (and without skipCache), for
    a URL of characters below 256, reads neither tier and does not look at
    the registry; it counts a miss and issues a fetch of its own, which it
    does not register.  When the JSON body is in, the caller gets the
    value, the memory tier gets the new entry, and the durable tier gets
    what the Quota Guard lets through: the entry when the breaker is open
    and setItem accepts it; when the breaker is set, setItem is not called
    (no host call is made at all) and localStorage stays as it is. *)
Theorem forced_refresh (url : string) (options : Options) (now : Z) (w : World) :
  forceRefresh options = true → skipCache options = false →
  let p := (cachedFetch url options now w).1 in
  let w1 := (cachedFetch url options now w).2 in
  let cacheKey := getCacheKey url in
  let ticket := S (fresh w) in
  network w1 = <[ticket := AwaitFetch url cacheKey p]> (network w)
  ∧ calls w1 = mkCalls (S (fetchCalls (calls w))) (getItemCalls (calls w))
                 (setItemCalls (calls w)) (removeItemCalls (calls w))
  ∧ inflight w1 = inflight w ∧ memoryCache w1 = memoryCache w
  ∧ localStorage w1 = localStorage w ∧ promises w1 = promises w
  ∧ stats w1 = mkStats (hits (stats w)) (S (misses (stats w)))
  ∧ ∀ (w2 : World) (value : JSON) (later : Z),
      network w2 !! ticket = Some (AwaitFetch url cacheKey p) →
      let cacheEntry := mkEntry later value in
      let w3 := respond ticket (Arrived (JsonText value)) later w2 in
      promises w3 !! p = Some (Fulfilled value)
      ∧ memoryCache w3 !! cacheKey = Some cacheEntry
      ∧ localStorage w3 = localStorage (persist cacheKey cacheEntry later w2)
      ∧ (storageQuotaExceeded w2 = false →
         setItemThrows w2 (localStorage w2) cacheKey (EntryText cacheEntry) = None →
         localStorage w3 !! cacheKey = Some (EntryText cacheEntry))
      ∧ (storageQuotaExceeded w2 = true →
         localStorage w3 = localStorage w2 ∧ calls w3 = calls w2).
Proof.
  intros Hforce Hskip. unfold cachedFetch, newPromise. rewrite Hforce, Hskip. cbn.
  do 7 (split; [done|]).
  intros w2 value later Hpending.
  destruct (respond_fetched w2 _ _ url (getCacheKey url) value later Hpending)
    as (Hmem & Hstore & _ & _ & Hprom & _).
  split; [rewrite Hprom; apply lookup_insert_eq|].
  split; [rewrite Hmem; apply lookup_insert_eq|].
  split; [done|]. split.
  - rewrite Hstore. unfold persist, JSON_stringify, localStorage_setItem.
    intros -> Hok. cbn. rewrite Hok. cbn. apply lookup_insert_eq.
  - intros Hset. split.
    + rewrite Hstore. unfold persist. cbn. by rewrite Hset.
    + unfold respond. rewrite Hpending. unfold fetchBody, persist. cbn.
      by rewrite Hset.
Qed.

Lemma forced_refresh_witness :
  let w := boot Sample.storage Sample.roomy in
  let w1 := (cachedFetch Sample.pelajar Sample.forcing 1500 w).2 in
  let w3 := respond 1 (Arrived (JsonText (JStr "new list"))) 1600 w1 in
  let latched := set_storageQuotaExceeded true w1 in
  getItemCalls (calls w1) = 0%nat
  ∧ inflight w1 = inflight w
  ∧ promises w3 !! 0%nat = Some (Fulfilled (JStr "new list"))
  ∧ memoryCache w3 !! Sample.pelajarKey = Some (mkEntry 1600 (JStr "new list"))
  ∧ localStorage w3 !! Sample.pelajarKey = Some (EntryText (mkEntry 1600 (JStr "new list")))
  ∧ calls (respond 1 (Arrived (JsonText (JStr "new list"))) 1600 latched) = calls latched.
Proof.
  destruct (forced_refresh Sample.pelajar Sample.forcing 1500
              (boot Sample.storage Sample.roomy) eq_refl eq_refl)
    as (_ & Hcalls & Hflight & _ & _ & _ & _ & Hlater).
  split; [by rewrite Hcalls|]. split; [exact Hflight|].
  destruct (Hlater (cachedFetch Sample.pelajar Sample.forcing 1500
                      (boot Sample.storage Sample.roomy)).2
              (JStr "new list") 1600 eq_refl)
    as (Hprom & Hmem & _ & Hdurable & _).
  split; [exact Hprom|]. split; [exact Hmem|].
  split; [exact (Hdurable eq_refl eq_refl)|].
  destruct (Hlater (set_storageQuotaExceeded true
                      (cachedFetch Sample.pelajar Sample.forcing 1500
                         (boot Sample.storage Sample.roomy)).2)
              (JStr "new list") 1600 eq_refl)
    as (_ & _ & _ & _ & Hlatched).
  exact (proj2 (Hlatched eq_refl)).
Defined.

(** C3, as stated, fails: a fetch for the URL is pending and registered, a
    call with forceRefresh issues a second fetch for the same key all the
    same, and the registry still holds the first ticket only. *)
Lemma forced_refresh_is_not_deduplicated :
  let w := boot Sample.storage Sample.roomy in
  let w1 := (cachedFetch Sample.ruang defaults 2000 w).2 in
  let w2 := (cachedFetch Sample.ruang Sample.forcing 2001 w1).2 in
  network w1 !! 1%nat = Some (AwaitFetch Sample.ruang Sample.ruangKey 0)
  ∧ inflight w1 !! Sample.ruangKey = Some 1%nat
  ∧ network w2 !! 1%nat = Some (AwaitFetch Sample.ruang Sample.ruangKey 0)
  ∧ network w2 !! 3%nat = Some (AwaitFetch Sample.ruang Sample.ruangKey 2)
  ∧ fetchCalls (calls w2) = 2%nat
  ∧ inflight w2 !! Sample.ruangKey = Some 1%nat.
Proof. vm_compute. by repeat split. Qed.

(** * More properties of the code *)

(** ** Key Deriver *)

Lemma to_int32_range z : - 2147483648 ≤ to_int32 z < 2147483648.
Proof.
  unfold to_int32. change (2 ^ 31) with 2147483648. change (2 ^ 32) with 4294967296.
  pose proof (Z.mod_pos_bound (z + 2147483648) 4294967296). lia.
Qed.

Lemma to_int32_cong z : ∃ k, to_int32 z = z + k * 4294967296.
Proof.
  unfold to_int32. change (2 ^ 31) with 2147483648. change (2 ^ 32) with 4294967296.
  exists (- ((z + 2147483648) / 4294967296)).
  pose proof (Z.div_mod (z + 2147483648) 4294967296). lia.
Qed.

Lemma hash_step_cong h c : ∃ k, hash_step h c = 31 * h + charCode c + k * 4294967296.
Proof.
  unfold hash_step. rewrite Z.shiftl_mul_pow2 by lia. change (2 ^ 5) with 32.
  destruct (to_int32_cong (h * 32)) as [k1 ->].
  destruct (to_int32_cong (h * 32 + k1 * 4294967296 - h + charCode c)) as [k2 ->].
  exists (k1 + k2). lia.
Qed.

Lemma hash_step_range h c : - 2147483648 ≤ hash_step h c < 2147483648.
Proof. apply to_int32_range. Qed.

Lemma hash_loop_range url h :
  - 2147483648 ≤ h < 2147483648 → - 2147483648 ≤ hash_loop url h < 2147483648.
Proof.
  revert h; induction url as [|c url IH]; intros h Hh; [done|].
  cbn [hash_loop]. apply IH, hash_step_range.
Qed.

Lemma hash_loop_app a b h : hash_loop (a ++ b) h = hash_loop b (hash_loop a h).
Proof.
  revert h; induction a as [|c a IH]; intros h; [done|].
  change (String c a ++ b) with (String c (a ++ b)). cbn [hash_loop]. apply IH.
Qed.

Lemma hash_Aa_BB h :
  hash_step (hash_step h "A") "a" = hash_step (hash_step h "B") "B".
Proof.
  destruct (hash_step_cong h "A") as [k1 E1].
  destruct (hash_step_cong h "B") as [k3 E3].
  change (charCode "A") with 65 in E1. change (charCode "B") with 66 in E3.
  set (a := hash_step h "A") in *. set (b := hash_step h "B") in *.
  pose proof (hash_step_range a "a").
  pose proof (hash_step_range b "B").
  destruct (hash_step_cong a "a") as [k2 E2].
  destruct (hash_step_cong b "B") as [k4 E4].
  change (charCode "a") with 97 in E2. change (charCode "B") with 66 in E4.
  lia.
Qed.

Lemma substring_length n s : (String.length (substring 0 n s) ≤ n)%nat.
Proof.
  revert s; induction n as [|n IH]; intros [|c s]; cbn; try lia.
  specialize (IH s). lia.
Qed.

Lemma substring_app n a b :
  (n ≤ String.length a)%nat → substring 0 n (a ++ b) = substring 0 n a.
Proof.
  revert a; induction n as [|n IH]; intros a Hn.
  - by destruct a, b.
  - destruct a as [|c a]; [cbn in Hn; lia|].
    change (String c a ++ b) with (String c (a ++ b)). cbn [substring].
    rewrite IH; [done|]. cbn in Hn. lia.
Qed.

Lemma allAlnum_substring n s : allAlnum s = true → allAlnum (substring 0 n s) = true.
Proof.
  revert s; induction n as [|n IH]; intros [|c s]; cbn; try done.
  intros [Hc Hs]%andb_true_iff. rewrite Hc. by apply IH.
Qed.

Lemma allAlnum_keepAlnum s : allAlnum (keepAlnum s) = true.
Proof.
  induction s as [|c s IH]; [done|]. cbn [keepAlnum].
  destruct (isAlnum c) eqn:Hc; [|done]. cbn [allAlnum]. by rewrite Hc.
Qed.

Lemma prefix_app a b : String.prefix a (a ++ b) = true.
Proof.
  induction a as [|c a IH]; [by destruct b|].
  change (String c a ++ b) with (String c (a ++ b)). cbn [String.prefix].
  by destruct (ascii_dec c c).
Qed.

Lemma getCacheKey_namespaced url : namespaced (getCacheKey url) = true.
Proof.
  unfold namespaced, startsWith, getCacheKey. rewrite prefix_app.
  by unfold CACHE_PREFIX.
Qed.

Lemma getCacheKey_parts url :
  getCacheKey url = CACHE_PREFIX ++ pretty (hash_loop url 0) ++ "_" ++ keyTail url.
Proof. reflexivity. Qed.

(** X1: every cache key begins with the prefix of the cache, so
    clearCache, under any entity prefix, leaves no durable entry behind for
    any URL. *)
Theorem cache_keys_are_cleared (url : string) (entityPrefix : option string) (w : World) :
  startsWith (getCacheKey url) CACHE_PREFIX = true
  ∧ localStorage (clearCache entityPrefix w).2 !! getCacheKey url = None.
Proof.
  pose proof (getCacheKey_namespaced url) as Hns.
  split.
  - unfold namespaced in Hns. by apply andb_true_iff in Hns as [_ ?].
  - rewrite clearCache_lookup. by rewrite Hns.
Qed.

(** X2: a cache key is the prefix, the decimal of a signed 32-bit hash,
    an underscore, and at most 40 letters and digits. *)
Theorem cache_key_shape (url : string) :
  getCacheKey url = CACHE_PREFIX ++ pretty (hash_loop url 0) ++ "_" ++ keyTail url
  ∧ - 2 ^ 31 ≤ hash_loop url 0 < 2 ^ 31
  ∧ (String.length (keyTail url) ≤ 40)%nat
  ∧ allAlnum (keyTail url) = true.
Proof.
  split; [apply getCacheKey_parts|]. split; [apply hash_loop_range; lia|].
  split; [apply substring_length|].
  apply allAlnum_substring, allAlnum_keepAlnum.
Qed.

(** X3: the hash does not tell Aa from BB.  Two URLs that differ only
    there get one cache key as soon as the encoded parts of the key agree,
    which they do when the difference lies beyond the first 100
    characters. *)
Theorem colliding_urls (pre rest : string) :
  (keyTail (pre ++ "Aa" ++ rest) = keyTail (pre ++ "BB" ++ rest) →
   getCacheKey (pre ++ "Aa" ++ rest) = getCacheKey (pre ++ "BB" ++ rest))
  ∧ ((100 ≤ String.length pre)%nat →
     keyTail (pre ++ "Aa" ++ rest) = keyTail (pre ++ "BB" ++ rest)).
Proof.
  split.
  - intros Htail.
    rewrite (getCacheKey_parts (pre ++ "Aa" ++ rest)).
    rewrite (getCacheKey_parts (pre ++ "BB" ++ rest)).
    rewrite Htail. do 2 f_equal.
    rewrite !hash_loop_app.
    change ("Aa" ++ rest) with (String "A" (String "a" rest)).
    change ("BB" ++ rest) with (String "B" (String "B" rest)).
    cbn [hash_loop]. by rewrite hash_Aa_BB.
  - intros Hlong. unfold keyTail. by rewrite !substring_app.
Qed.

Lemma colliding_urls_witness :
  getCacheKey (Scenario.short ++ "Aa" ++ "") = getCacheKey (Scenario.short ++ "BB" ++ "")
  ∧ getCacheKey (Scenario.long ++ "Aa" ++ "17")
    = getCacheKey (Scenario.long ++ "BB" ++ "17").
Proof.
  split.
  - apply (proj1 (colliding_urls Scenario.short "")). vm_compute. reflexivity.
  - destruct (colliding_urls Scenario.long "17") as [Hkey Htail].
    apply Hkey, Htail. vm_compute. lia.
Defined.

(** ** Paths of a call that reads the tiers *)

Lemma reading_options options :
  reading options = true → skipCache options = false ∧ forceRefresh options = false.
Proof.
  unfold reading. intros [H1 H2]%andb_true_iff.
  by apply negb_true_iff in H1, H2.
Qed.

Lemma served_from_memory (url : string) (options : Options) (now : Z) (w : World)
    (memoryEntry : CacheEntry) :
  reading options = true →
  inflight w !! getCacheKey url = None →
  memoryCache w !! getCacheKey url = Some memoryEntry →
  isCacheValid now memoryEntry
    (effectiveTTL (customTTL options) (getEntityFromUrl url)) = true →
  let p := (cachedFetch url options now w).1 in
  let w1 := (cachedFetch url options now w).2 in
  p = fresh w
  ∧ promises w1 !! p = Some (Fulfilled (data memoryEntry))
  ∧ calls w1 = calls w ∧ network w1 = network w ∧ inflight w1 = inflight w
  ∧ memoryCache w1 = memoryCache w ∧ localStorage w1 = localStorage w
  ∧ stats w1 = mkStats (S (hits (stats w))) (misses (stats w)).
Proof.
  intros [Hskip Hforce]%reading_options Hflight Hmem Hvalid.
  unfold cachedFetch, newPromise. rewrite Hskip, Hforce. cbn.
  rewrite Hflight. unfold readCache. cbn. rewrite Hmem, Hvalid. cbn.
  rewrite lookup_insert_eq. by repeat split.
Qed.

Lemma served_from_durable (url : string) (options : Options) (now : Z) (w : World)
    (cacheEntry : CacheEntry) :
  reading options = true →
  inflight w !! getCacheKey url = None →
  (∀ e, memoryCache w !! getCacheKey url = Some e →
        isCacheValid now e (effectiveTTL (customTTL options) (getEntityFromUrl url)) = false) →
  localStorage w !! getCacheKey url = Some (EntryText cacheEntry) →
  isCacheValid now cacheEntry
    (effectiveTTL (customTTL options) (getEntityFromUrl url)) = true →
  let p := (cachedFetch url options now w).1 in
  let w1 := (cachedFetch url options now w).2 in
  p = fresh w
  ∧ promises w1 !! p = Some (Fulfilled (data cacheEntry))
  ∧ calls w1 = mkCalls (fetchCalls (calls w)) (S (getItemCalls (calls w)))
                 (setItemCalls (calls w)) (removeItemCalls (calls w))
  ∧ network w1 = network w ∧ inflight w1 = inflight w
  ∧ memoryCache w1 = <[getCacheKey url := cacheEntry]> (memoryCache w)
  ∧ localStorage w1 = localStorage w
  ∧ stats w1 = mkStats (S (hits (stats w))) (misses (stats w)).
Proof.
  intros [Hskip Hforce]%reading_options Hflight Hmem Hstore Hvalid.
  unfold cachedFetch, newPromise. rewrite Hskip, Hforce. cbn.
  rewrite Hflight. unfold readCache, readDurable, localStorage_getItem. cbn.
  destruct (memoryCache w !! getCacheKey url) as [m|] eqn:Hm;
    [rewrite (Hmem m eq_refl)|]; rewrite Hstore; cbn; rewrite Hvalid; cbn;
    rewrite lookup_insert_eq; by repeat split.
Qed.

Lemma miss_path (url : string) (options : Options) (now : Z) (w : World) :
  reading options = true →
  inflight w !! getCacheKey url = None →
  unanswerable url options now w →
  let p := (cachedFetch url options now w).1 in
  let w1 := (cachedFetch url options now w).2 in
  p = fresh w
  ∧ network w1 = <[S p := AwaitFetch url (getCacheKey url) p]> (network w)
  ∧ inflight w1 = <[getCacheKey url := S p]> (inflight w)
  ∧ calls w1 = mkCalls (S (fetchCalls (calls w))) (S (getItemCalls (calls w)))
                 (setItemCalls (calls w)) (removeItemCalls (calls w))
  ∧ stats w1 = mkStats (hits (stats w)) (S (misses (stats w)))
  ∧ promises w1 = promises w ∧ memoryCache w1 = memoryCache w
  ∧ localStorage w1 = localStorage w ∧ adopted w1 = adopted w.
Proof.
  intros [Hskip Hforce]%reading_options Hflight [Hmem Hstore].
  unfold cachedFetch, newPromise. rewrite Hskip, Hforce. cbn.
  rewrite Hflight. unfold readCache, readDurable, localStorage_getItem. cbn.
  destruct (memoryCache w !! getCacheKey url) as [m|] eqn:Hm;
    [rewrite (Hmem m eq_refl)|];
    (destruct (localStorage w !! getCacheKey url) as [[e|raw]|] eqn:Hs; cbn;
     [destruct (Hstore e eq_refl) as [-> ->]; cbn
     |destruct (String.eqb raw ""); cbn
     |]); by repeat split.
Qed.

Lemma stale_path (url : string) (options : Options) (now : Z) (w : World)
    (cacheEntry : CacheEntry) :
  reading options = true →
  staleWhileRevalidate options = true →
  inflight w !! getCacheKey url = None →
  (∀ e, memoryCache w !! getCacheKey url = Some e →
        isCacheValid now e (effectiveTTL (customTTL options) (getEntityFromUrl url)) = false) →
  localStorage w !! getCacheKey url = Some (EntryText cacheEntry) →
  isCacheValid now cacheEntry
    (effectiveTTL (customTTL options) (getEntityFromUrl url)) = false →
  truthy (data cacheEntry) = true →
  let p := (cachedFetch url options now w).1 in
  let w1 := (cachedFetch url options now w).2 in
  p = fresh w
  ∧ promises w1 = <[p := Fulfilled (data cacheEntry)]> (promises w)
  ∧ network w1 = <[S p := AwaitRefresh url (getCacheKey url) cacheEntry]> (network w)
  ∧ inflight w1 = <[getCacheKey url := S p]> (inflight w)
  ∧ calls w1 = mkCalls (S (fetchCalls (calls w))) (S (getItemCalls (calls w)))
                 (setItemCalls (calls w)) (removeItemCalls (calls w))
  ∧ stats w1 = mkStats (S (hits (stats w))) (misses (stats w))
  ∧ memoryCache w1 = memoryCache w ∧ localStorage w1 = localStorage w
  ∧ setItemThrows w1 = setItemThrows w ∧ fresh w1 = S (S p)
  ∧ adopted w1 = adopted w.
Proof.
  intros [Hskip Hforce]%reading_options Hswr Hflight Hmem Hstore Hstale Htruthy.
  unfold cachedFetch, newPromise. rewrite Hskip, Hforce. cbn.
  rewrite Hflight. unfold readCache, readDurable, localStorage_getItem. cbn.
  destruct (memoryCache w !! getCacheKey url) as [m|] eqn:Hm;
    [rewrite (Hmem m eq_refl)|]; rewrite Hstore; cbn;
    rewrite Hstale, Hswr, Htruthy; cbn; rewrite Hflight; cbn; by repeat split.
Qed.

Lemma joined_path (url : string) (options : Options) (now : Z) (w : World) (ticket : nat) :
  reading options = true →
  inflight w !! getCacheKey url = Some ticket →
  cachedFetch url options now w
  = (fresh w, adopt (fresh w) ticket (set_fresh (S (fresh w)) w)).
Proof.
  intros [Hskip Hforce]%reading_options Hflight.
  unfold cachedFetch, newPromise. rewrite Hskip, Hforce. cbn. by rewrite Hflight.
Qed.

(** ** Failure of the network, for the call that fetched and the call that joined *)

Lemma apart_boot storage throws : apart (boot storage throws).
Proof. intros t url k c Ht. cbn in Ht. by rewrite lookup_empty in Ht. Qed.

Lemma apart_exec a w : apart w → apart (exec w a).
Proof.
  intros Hapart.
  destruct a as [url options now|ticket result now|entityPrefix|now|]; unfold exec.
  - destruct (call_shape url options now w) as (_ & Hshape). cbn zeta in Hshape.
    intros t u k c Ht.
    destruct Hshape as [([Hnet|[_ Hnet]] & _)
                       |[((stale & Hnet & _) & _)|(Hnet & _)]];
      rewrite Hnet in Ht; [by apply (Hapart t u k c)|..];
      (apply lookup_insert_Some in Ht as [[<- Heq]|[_ Ht]];
       [simplify_eq; lia|by apply (Hapart t u k c)]).
  - destruct (network w !! ticket) as [waiting|] eqn:Hpending;
      [|by rewrite respond_idle].
    destruct (respond_shape ticket result now w waiting Hpending) as (Hnet & _).
    intros t u k c Ht. rewrite Hnet in Ht.
    apply lookup_delete_Some in Ht as [_ Ht]. by apply (Hapart t u k c).
  - destruct (clearCache_hostChange entityPrefix w) as (_ & _ & _ & _ & Hn & _).
    intros t u k c Ht. rewrite Hn in Ht. by apply (Hapart t u k c).
  - destruct (clearOldCache_hostChange now w) as (_ & _ & _ & _ & Hn & _).
    intros t u k c Ht. rewrite Hn in Ht. by apply (Hapart t u k c).
  - done.
Qed.

Lemma apart_run script w : apart w → apart (run w script).
Proof.
  revert w; induction script as [|a script IH]; intros w Hapart; [done|].
  cbn. apply IH. by apply apart_exec.
Qed.

(** What a call that joined a pending fetch receives when the network
    fails: the outcome of the promise it joined.  For a fetch of the miss
    path that is the network failure, whatever localStorage holds; for a
    background refresh it is the data of the stale entry. *)
Lemma joined_call_failure (url : string) (options : Options) (now : Z)
    (w : World) (ticket : nat) (waiting : Awaiting) (later : Z) :
  reading options = true → tidy w → apart w →
  inflight w !! getCacheKey url = Some ticket →
  network w !! ticket = Some waiting →
  let p := (cachedFetch url options now w).1 in
  let w1 := (cachedFetch url options now w).2 in
  adopted w1 !! p = Some ticket ∧ calls w1 = calls w ∧ stats w1 = stats w
  ∧ delivered (respond ticket Unreachable later w1) p
    = Some match waiting with
           | AwaitRefresh _ _ stale => Fulfilled (data stale)
           | _ => Rejected NetworkFailure
           end.
Proof.
  intros Hreading [Hunused Hbelow] Hapart Hflight Hpending.
  rewrite (joined_path url options now w ticket Hreading Hflight). cbn zeta. cbn [fst snd].
  set (w1 := adopt (fresh w) ticket (set_fresh (S (fresh w)) w)).
  assert (Hpending1 : network w1 !! ticket = Some waiting) by done.
  assert (Hadopted1 : adopted w1 !! fresh w = Some ticket) by apply lookup_insert_eq.
  split; [done|]. split; [done|]. split; [reflexivity|].
  destruct (Hbelow ticket waiting Hpending) as [Hticket Hcaller].
  destruct (respond_shape ticket Unreachable later w1 waiting Hpending1)
    as (_ & _ & Hadopted & Hshape).
  unfold delivered. rewrite Hadopted, Hadopted1.
  destruct waiting as [direct|direct cacheKey stale|direct cacheKey caller].
  - destruct Hshape as [_ ->].
    rewrite lookup_insert_ne by lia.
    change (promises w1) with (promises w). rewrite (Hunused (fresh w)) by lia.
    by rewrite lookup_insert_eq.
  - destruct Hshape as [_ [outcome Hprom]].
    destruct (respond_failed_refresh w1 ticket direct cacheKey stale Unreachable later
                Hpending1) as (_ & _ & _ & Hstale); [by left|].
    rewrite Hprom in *. rewrite lookup_insert_eq in Hstale.
    rewrite lookup_insert_ne by lia.
    change (promises w1) with (promises w). rewrite (Hunused (fresh w)) by lia.
    by rewrite lookup_insert_eq, Hstale.
  - destruct Hshape as [_ [answer [-> _]]].
    pose proof (Hapart ticket direct cacheKey caller Hpending) as Hne.
    rewrite !lookup_insert_ne by lia.
    change (promises w1) with (promises w). rewrite (Hunused (fresh w)) by lia.
    rewrite ?lookup_insert_ne by done. by rewrite lookup_insert_eq.
Qed.

(** C9, as amended: take a call without skipCache.  If it started the
    fetch of the miss path and the fetch fails, the promise of the call is
    fulfilled with the data of the durable entry of the key, valid or
    stale, when localStorage holds one, and is rejected with the network
    failure when it holds none.  If it started a background refresh, the
    call has already been answered with the data of the stale durable
    entry, and the failure leaves that data as the refresh's own result.
    If the call joined a pending fetch (lines 113-115), it receives what
    the joined promise settles with: the network failure of a fetch of the
    miss path, whatever localStorage holds for the key; the stale data of
    a background refresh.  (The worlds of this last part are [tidy] and
    [apart], as every world is that the module reaches.) *)
Theorem network_failure_falls_back (url : string) (options : Options) (now : Z)
    (w : World) (ticket : nat) (waiting : Awaiting) :
  skipCache options = false →
  let p := (cachedFetch url options now w).1 in
  let w1 := (cachedFetch url options now w).2 in
  let cacheKey := getCacheKey url in
  (network w1 !! ticket = Some waiting → network w !! ticket ≠ Some waiting →
   match waiting with
   | AwaitRefresh _ _ stale =>
       localStorage w !! cacheKey = Some (EntryText stale)
       ∧ promises w1 !! p = Some (Fulfilled (data stale))
       ∧ ∀ (w2 : World) (later : Z),
           network w2 !! ticket = Some waiting →
           promises (respond ticket Unreachable later w2) !! ticket
           = Some (Fulfilled (data stale))
   | _ =>
       ∀ (w2 : World) (later : Z),
         network w2 !! ticket = Some waiting →
         promises (respond ticket Unreachable later w2) !! p
         = Some (fallback w2 cacheKey NetworkFailure)
   end)
  ∧ (forceRefresh options = false → tidy w → apart w →
     inflight w !! cacheKey = Some ticket →
     network w !! ticket = Some waiting →
     adopted w1 !! p = Some ticket ∧ calls w1 = calls w
     ∧ ∀ later : Z,
         delivered (respond ticket Unreachable later w1) p
         = Some match waiting with
                | AwaitRefresh _ _ stale => Fulfilled (data stale)
                | _ => Rejected NetworkFailure
                end).
Proof.
  intros Hskip p w1 cacheKey. split.
  - intros Hnew Hold.
    destruct (call_starts url options now w ticket waiting Hskip Hnew Hold)
      as [->|(stale & -> & _ & _ & Hdurable & Hserved)].
    + intros w2 later Hpending.
      by apply (respond_failed_fetch w2 ticket p url cacheKey Unreachable NetworkFailure
                  later).
    + split; [done|]. split; [done|]. intros w2 later Hpending.
      apply (respond_failed_refresh w2 ticket url cacheKey stale Unreachable later); auto.
  - intros Hforce Htidy Hapart Hflight Hpending.
    assert (Hreading : reading options = true) by (unfold reading; by rewrite Hskip, Hforce).
    split; [|split].
    + by destruct (joined_call_failure url options now w ticket waiting 0 Hreading Htidy
                     Hapart Hflight Hpending) as (? & _).
    + by destruct (joined_call_failure url options now w ticket waiting 0 Hreading Htidy
                     Hapart Hflight Hpending) as (_ & ? & _).
    + intros later.
      by destruct (joined_call_failure url options now w ticket waiting later Hreading Htidy
                     Hapart Hflight Hpending) as (_ & _ & _ & ?).
Qed.

Lemma network_failure_falls_back_witness :
  let stale := 1000 + 31 * Sample.minute in
  let w := boot Sample.storage Sample.roomy in
  let w1 := (cachedFetch Sample.pelajar defaults stale w).2 in
  let v1 := (cachedFetch Sample.ruang defaults stale w).2 in
  let joined := run w [Call Sample.pelajar defaults stale] in
  let q := (cachedFetch Sample.pelajar defaults (stale + 1) joined).1 in
  let w2 := (cachedFetch Sample.pelajar defaults (stale + 1) joined).2 in
  promises (respond 1 Unreachable (stale + 5) w1) !! 0%nat
    = Some (Fulfilled (JStr "old list"))
  ∧ promises (respond 1 Unreachable (stale + 5) v1) !! 0%nat
    = Some (Rejected NetworkFailure)
  ∧ delivered (respond 1 Unreachable (stale + 5) w2) q = Some (Rejected NetworkFailure).
Proof.
  split; [|split].
  - apply (proj1 (network_failure_falls_back Sample.pelajar defaults
                    (1000 + 31 * Sample.minute) (boot Sample.storage Sample.roomy) 1
                    (AwaitFetch Sample.pelajar Sample.pelajarKey 0) eq_refl));
      [reflexivity|discriminate|reflexivity].
  - apply (proj1 (network_failure_falls_back Sample.ruang defaults
                    (1000 + 31 * Sample.minute) (boot Sample.storage Sample.roomy) 1
                    (AwaitFetch Sample.ruang Sample.ruangKey 0) eq_refl));
      [reflexivity|discriminate|reflexivity].
  - destruct (proj2 (network_failure_falls_back Sample.pelajar defaults
                       (1000 + 31 * Sample.minute + 1)
                       (run (boot Sample.storage Sample.roomy)
                          [Call Sample.pelajar defaults (1000 + 31 * Sample.minute)])
                       1 (AwaitFetch Sample.pelajar Sample.pelajarKey 0) eq_refl))
      as (_ & _ & Hfailure);
      [reflexivity|apply tidy_run, tidy_boot|apply apart_run, apart_boot
      |reflexivity|reflexivity|].
    exact (Hfailure (1000 + 31 * Sample.minute + 5)).
Defined.

(** C9, as stated, fails: localStorage holds an entry for the student
    list, a first call misses and fetches, a second call joins the pending
    fetch, and the network fails.  The caller that issued the fetch is
    served the durable entry; the caller that joined holds fetchPromise
    itself and is rejected with the failure, although the durable entry
    is there. *)
Lemma joined_caller_gets_the_failure :
  let stale := 1000 + 31 * Sample.minute in
  let w := boot Sample.storage Sample.roomy in
  let first := (cachedFetch Sample.pelajar defaults stale w).1 in
  let w1 := (cachedFetch Sample.pelajar defaults stale w).2 in
  let second := (cachedFetch Sample.pelajar defaults (stale + 1) w1).1 in
  let w2 := (cachedFetch Sample.pelajar defaults (stale + 1) w1).2 in
  let w3 := respond 1 Unreachable (stale + 5) w2 in
  fetchCalls (calls w2) = 1%nat
  ∧ delivered w3 first = Some (Fulfilled (JStr "old list"))
  ∧ delivered w3 second = Some (Rejected NetworkFailure).
Proof. vm_compute. by repeat split. Qed.

(** ** How fetches and later calls compose *)

(** X4: once a fetch of the miss path has brought a JSON value, the
    memory tier holds the new entry and the key has no ticket, whatever
    localStorage did with the write.  From then on, in every world in
    which the memory tier still holds that entry and no ticket is
    registered for the key, a call that reads the tiers for a URL (of
    characters below 256) with the same cache key, made while the entry
    is valid under that call's TTL, is answered with that value from the
    memory tier and counts a hit, without any call to the host. *)
Theorem fetched_value_is_served_within_ttl (w : World) (ticket caller : nat)
    (url cacheKey : string) (value : JSON) (later : Z) :
  network w !! ticket = Some (AwaitFetch url cacheKey caller) →
  let w1 := respond ticket (Arrived (JsonText value)) later w in
  memoryCache w1 !! cacheKey = Some (mkEntry later value)
  ∧ inflight w1 !! cacheKey = None
  ∧ ∀ (w' : World) (url' : string) (options : Options) (now : Z),
      memoryCache w' !! cacheKey = Some (mkEntry later value) →
      inflight w' !! cacheKey = None →
      getCacheKey url' = cacheKey →
      reading options = true →
      isCacheValid now (mkEntry later value)
        (effectiveTTL (customTTL options) (getEntityFromUrl url')) = true →
      let p := (cachedFetch url' options now w').1 in
      let w2 := (cachedFetch url' options now w').2 in
      promises w2 !! p = Some (Fulfilled value)
      ∧ calls w2 = calls w' ∧ network w2 = network w'
      ∧ memoryCache w2 = memoryCache w' ∧ inflight w2 = inflight w'
      ∧ stats w2 = mkStats (S (hits (stats w'))) (misses (stats w')).
Proof.
  intros Hpending. cbn zeta.
  destruct (respond_fetched w ticket caller url cacheKey value later Hpending)
    as (Hmem & _ & _ & _ & _ & _ & Hflight & _).
  split; [rewrite Hmem; apply lookup_insert_eq|].
  split; [rewrite Hflight; apply lookup_delete_eq|].
  intros w' url' options now Hheld Hfree <- Hreading Hvalid.
  destruct (served_from_memory url' options now w' (mkEntry later value) Hreading)
    as (_ & Hp & Hcalls & Hnet & Hfl & Hmc & _ & Hstats); done.
Qed.

Lemma fetched_value_is_served_within_ttl_witness :
  let w := (cachedFetch (Scenario.short ++ "Aa" ++ "") defaults 2000
              (boot Sample.storage Sample.full)).2 in
  let w1 := respond 1 (Arrived (JsonText (JStr "student Aa"))) 3000 w in
  let p := (cachedFetch (Scenario.short ++ "BB" ++ "") defaults 4000 w1).1 in
  let w2 := (cachedFetch (Scenario.short ++ "BB" ++ "") defaults 4000 w1).2 in
  localStorage w1 = Sample.storage
  ∧ promises w2 !! p = Some (Fulfilled (JStr "student Aa"))
  ∧ fetchCalls (calls w2) = 1%nat.
Proof.
  set (w := (cachedFetch (Scenario.short ++ "Aa" ++ "") defaults 2000
               (boot Sample.storage Sample.full)).2).
  destruct (fetched_value_is_served_within_ttl w 1 0 (Scenario.short ++ "Aa" ++ "")
              (getCacheKey (Scenario.short ++ "Aa" ++ "")) (JStr "student Aa") 3000)
    as (Hheld & Hfree & Hnext); [vm_compute; reflexivity|].
  destruct (Hnext (respond 1 (Arrived (JsonText (JStr "student Aa"))) 3000 w)
              (Scenario.short ++ "BB" ++ "") defaults 4000 Hheld Hfree)
    as (Hp & Hcalls & _); [vm_compute; reflexivity..|].
  split; [vm_compute; reflexivity|]. split; [exact Hp|].
  rewrite Hcalls. vm_compute. reflexivity.
Defined.

(** X5: an entry that localStorage accepted outlives the process.  After a
    restart with the store as it was left, a call made while the entry is
    valid is answered from the durable tier with one getItem and no fetch,
    the entry moves into the memory tier, and the next such call does not
    touch the host at all. *)
Theorem durable_entry_survives_restart (w : World) (ticket caller : nat) (url : string)
    (value : JSON) (later : Z)
    (throws : gmap string Stored → string → Stored → option DOMException)
    (options : Options) (now now2 : Z) :
  let cacheKey := getCacheKey url in
  let cacheEntry := mkEntry later value in
  let ttl := effectiveTTL (customTTL options) (getEntityFromUrl url) in
  network w !! ticket = Some (AwaitFetch url cacheKey caller) →
  storageQuotaExceeded w = false →
  setItemThrows w (localStorage w) cacheKey (EntryText cacheEntry) = None →
  reading options = true →
  isCacheValid now cacheEntry ttl = true → isCacheValid now2 cacheEntry ttl = true →
  let w1 := respond ticket (Arrived (JsonText value)) later w in
  let restarted := boot (localStorage w1) throws in
  let p1 := (cachedFetch url options now restarted).1 in
  let r1 := (cachedFetch url options now restarted).2 in
  let p2 := (cachedFetch url options now2 r1).1 in
  let r2 := (cachedFetch url options now2 r1).2 in
  promises r1 !! p1 = Some (Fulfilled value)
  ∧ calls r1 = mkCalls 0 1 0 0
  ∧ memoryCache r1 !! cacheKey = Some cacheEntry
  ∧ promises r2 !! p2 = Some (Fulfilled value)
  ∧ calls r2 = calls r1.
Proof.
  intros cacheKey cacheEntry ttl Hpending Hopen Hok Hreading Hvalid Hvalid2. cbn zeta.
  destruct (respond_fetched w ticket caller url cacheKey value later Hpending)
    as (_ & Hstore & _).
  assert (Hdurable : localStorage (respond ticket (Arrived (JsonText value)) later w)
                     !! cacheKey = Some (EntryText cacheEntry)).
  { rewrite Hstore. unfold persist, JSON_stringify, localStorage_setItem.
    rewrite Hopen. cbn. fold cacheEntry. rewrite Hok. cbn. apply lookup_insert_eq. }
  destruct (served_from_durable url options now
              (boot (localStorage (respond ticket (Arrived (JsonText value)) later w)) throws)
              cacheEntry Hreading)
    as (_ & Hp1 & Hcalls1 & _ & Hflight1 & Hmem1 & _); try done.
  destruct (served_from_memory url options now2
              (cachedFetch url options now
                 (boot (localStorage (respond ticket (Arrived (JsonText value)) later w))
                    throws)).2
              cacheEntry Hreading)
    as (_ & Hp2 & Hcalls2 & _); try done.
  - by rewrite Hflight1.
  - rewrite Hmem1. apply lookup_insert_eq.
  - split; [done|]. split; [done|]. split; [|done].
    rewrite Hmem1. apply lookup_insert_eq.
Qed.

Lemma durable_entry_survives_restart_witness :
  let w := (cachedFetch Sample.ruang defaults 2000 (boot Sample.storage Sample.roomy)).2 in
  let w1 := respond 1 (Arrived (JsonText (JStr "rooms"))) 3000 w in
  let restarted := boot (localStorage w1) Sample.full in
  let p1 := (cachedFetch Sample.ruang defaults (3000 + Sample.hour) restarted).1 in
  let r1 := (cachedFetch Sample.ruang defaults (3000 + Sample.hour) restarted).2 in
  promises r1 !! p1 = Some (Fulfilled (JStr "rooms"))
  ∧ calls r1 = mkCalls 0 1 0 0.
Proof.
  set (w := (cachedFetch Sample.ruang defaults 2000 (boot Sample.storage Sample.roomy)).2).
  destruct (durable_entry_survives_restart w 1 0 Sample.ruang (JStr "rooms") 3000
              Sample.full defaults (3000 + Sample.hour) (3000 + 2 * Sample.hour))
    as (Hp & Hcalls & _); [vm_compute; reflexivity..|].
  split; [exact Hp|exact Hcalls].
Defined.

(** X6: take a URL of characters below 256.  When no tier can answer a
    call that reads them (no valid memory entry; the durable value absent,
    not parsing, or expired and either staleWhileRevalidate is off or the
    stale payload is falsy) and no ticket is registered, the call counts
    one miss, reads localStorage once, issues one fetch and registers it;
    when the JSON body is in, the caller gets the value and the ticket is
    gone. *)
Theorem unanswerable_call_fetches (url : string) (options : Options) (now : Z) (w : World) :
  reading options = true →
  inflight w !! getCacheKey url = None →
  unanswerable url options now w →
  let p := (cachedFetch url options now w).1 in
  let w1 := (cachedFetch url options now w).2 in
  let ticket := S (fresh w) in
  delivered w1 p = delivered w p
  ∧ stats w1 = mkStats (hits (stats w)) (S (misses (stats w)))
  ∧ calls w1 = mkCalls (S (fetchCalls (calls w))) (S (getItemCalls (calls w)))
                 (setItemCalls (calls w)) (removeItemCalls (calls w))
  ∧ network w1 !! ticket = Some (AwaitFetch url (getCacheKey url) p)
  ∧ inflight w1 !! getCacheKey url = Some ticket
  ∧ ∀ (value : JSON) (later : Z),
      let w2 := respond ticket (Arrived (JsonText value)) later w1 in
      promises w2 !! p = Some (Fulfilled value)
      ∧ memoryCache w2 !! getCacheKey url = Some (mkEntry later value)
      ∧ inflight w2 !! getCacheKey url = None
      ∧ network w2 !! ticket = None.
Proof.
  intros Hreading Hflight Hno. cbn zeta.
  destruct (miss_path url options now w Hreading Hflight Hno)
    as (Hp & Hnet & Hfl & Hcalls & Hstats & Hprom & _ & _ & Hadopted).
  destruct (cachedFetch url options now w) as [p w1] eqn:Hcall. cbn [fst snd] in *.
  subst p.
  split; [unfold delivered; by rewrite Hprom, Hadopted|].
  split; [done|]. split; [done|].
  assert (Hpending : network w1 !! S (fresh w)
                     = Some (AwaitFetch url (getCacheKey url) (fresh w)))
    by (rewrite Hnet; apply lookup_insert_eq).
  split; [done|]. split; [rewrite Hfl; apply lookup_insert_eq|].
  intros value later.
  destruct (respond_fetched w1 _ _ url (getCacheKey url) value later Hpending)
    as (Hmem2 & _ & _ & _ & Hprom2 & Hnet2 & Hfl2 & _).
  split; [rewrite Hprom2; apply lookup_insert_eq|].
  split; [rewrite Hmem2; apply lookup_insert_eq|].
  split; [rewrite Hfl2; apply lookup_delete_eq|].
  rewrite Hnet2. apply lookup_delete_eq.
Qed.

Lemma unanswerable_call_fetches_witness :
  let stale := 1000 + 31 * Sample.minute in
  let broken := boot (<[Sample.ruangKey := OtherText "{"]> Sample.storage) Sample.roomy in
  let falsy := boot (<[Sample.pelajarKey := EntryText (mkEntry 1000 (JNum 0))]> Sample.storage)
                 Sample.roomy in
  network (cachedFetch Sample.ruang defaults 2000 broken).2 !! 1%nat
    = Some (AwaitFetch Sample.ruang Sample.ruangKey 0)
  ∧ network (cachedFetch Sample.pelajar Sample.revalidating stale falsy).2 !! 1%nat
    = Some (AwaitFetch Sample.pelajar Sample.pelajarKey 0)
  ∧ stats (cachedFetch Sample.pelajar Sample.revalidating stale falsy).2 = mkStats 0 1.
Proof.
  assert (H1 : unanswerable Sample.ruang defaults 2000
             (boot (<[Sample.ruangKey := OtherText "{"]> Sample.storage) Sample.roomy)).
  { split; intros e He; vm_compute in He; discriminate. }
  assert (H2 : unanswerable Sample.pelajar Sample.revalidating (1000 + 31 * Sample.minute)
             (boot (<[Sample.pelajarKey := EntryText (mkEntry 1000 (JNum 0))]> Sample.storage)
                Sample.roomy)).
  { split; intros e He; vm_compute in He; [discriminate|].
    injection He as <-. vm_compute. split; reflexivity. }
  destruct (unanswerable_call_fetches Sample.ruang defaults 2000
             (boot (<[Sample.ruangKey := OtherText "{"]> Sample.storage) Sample.roomy)
             eq_refl eq_refl H1) as (_ & _ & _ & Hn1 & _).
  destruct (unanswerable_call_fetches Sample.pelajar Sample.revalidating
             (1000 + 31 * Sample.minute)
             (boot (<[Sample.pelajarKey := EntryText (mkEntry 1000 (JNum 0))]> Sample.storage)
                Sample.roomy) eq_refl eq_refl H2) as (_ & Hs2 & _ & Hn2 & _).
  split; [exact Hn1|]. split; [exact Hn2|exact Hs2].
Defined.

(** X7: stale-while-revalidate, for a URL of characters below 256.  A
    call that reads the tiers with staleWhileRevalidate, finding no ticket,
    no valid memory entry and an expired durable entry with a truthy
    payload, is answered with the stale payload at once, counts a hit,
    starts one background refresh and registers it.  In every world in
    which the key still has the ticket of that refresh, a call that reads
    the tiers joins it: no fetch, no count.  When the JSON body is in, the
    memory tier holds the new entry, the ticket is gone, and localStorage
    holds the new entry if setItem accepted it. *)
Theorem stale_entry_is_served_and_refreshed_once (url : string) (options : Options)
    (now : Z) (w : World) (cacheEntry : CacheEntry) :
  let cacheKey := getCacheKey url in
  let ttl := effectiveTTL (customTTL options) (getEntityFromUrl url) in
  reading options = true →
  staleWhileRevalidate options = true →
  inflight w !! cacheKey = None →
  (∀ e, memoryCache w !! cacheKey = Some e → isCacheValid now e ttl = false) →
  localStorage w !! cacheKey = Some (EntryText cacheEntry) →
  isCacheValid now cacheEntry ttl = false →
  truthy (data cacheEntry) = true →
  let p := (cachedFetch url options now w).1 in
  let w1 := (cachedFetch url options now w).2 in
  let refresh := S (fresh w) in
  promises w1 !! p = Some (Fulfilled (data cacheEntry))
  ∧ stats w1 = mkStats (S (hits (stats w))) (misses (stats w))
  ∧ fetchCalls (calls w1) = S (fetchCalls (calls w))
  ∧ network w1 !! refresh = Some (AwaitRefresh url cacheKey cacheEntry)
  ∧ inflight w1 !! cacheKey = Some refresh
  ∧ (∀ (w' : World) (options' : Options) (now' : Z),
       inflight w' !! cacheKey = Some refresh →
       reading options' = true →
       let q := (cachedFetch url options' now' w').1 in
       let w2 := (cachedFetch url options' now' w').2 in
       adopted w2 !! q = Some refresh ∧ promises w2 = promises w'
       ∧ calls w2 = calls w' ∧ network w2 = network w' ∧ stats w2 = stats w')
  ∧ ∀ (value : JSON) (later : Z),
      let newEntry := mkEntry later value in
      let w3 := respond refresh (Arrived (JsonText value)) later w1 in
      promises w3 !! refresh = Some (Fulfilled value)
      ∧ memoryCache w3 !! cacheKey = Some newEntry
      ∧ inflight w3 !! cacheKey = None
      ∧ (setItemThrows w (localStorage w) cacheKey (EntryText newEntry) = None →
         localStorage w3 !! cacheKey = Some (EntryText newEntry)).
Proof.
  intros cacheKey ttl Hreading Hswr Hflight Hmem Hstore Hstale Htruthy. cbn zeta.
  destruct (stale_path url options now w cacheEntry Hreading Hswr Hflight Hmem Hstore
              Hstale Htruthy)
    as (Hp & Hprom & Hnet & Hfl & Hcalls & Hstats & _ & Hls & Hthrows & _).
  destruct (cachedFetch url options now w) as [p w1]. cbn [fst snd] in *. subst p.
  assert (Hpending : network w1 !! S (fresh w) = Some (AwaitRefresh url cacheKey cacheEntry))
    by (rewrite Hnet; apply lookup_insert_eq).
  assert (Hticket : inflight w1 !! getCacheKey url = Some (S (fresh w)))
    by (rewrite Hfl; apply lookup_insert_eq).
  split; [rewrite Hprom; apply lookup_insert_eq|].
  split; [done|]. split; [by rewrite Hcalls|]. split; [done|]. split; [done|]. split.
  - intros w' options' now' Hticket' Hreading'.
    rewrite (joined_path url options' now' w' _ Hreading' Hticket'). cbn.
    split; [apply lookup_insert_eq|done].
  - intros value later.
    destruct (respond_refreshed w1 _ url cacheKey cacheEntry value later Hpending)
      as (Hmem3 & Hls3 & _ & _ & _ & Hprom3 & _ & Hfl3 & _).
    split; [rewrite Hprom3; apply lookup_insert_eq|].
    split; [rewrite Hmem3; apply lookup_insert_eq|].
    split; [rewrite Hfl3; apply lookup_delete_eq|].
    intros Hok. rewrite Hls3, Hthrows, Hls, Hok. apply lookup_insert_eq.
Qed.

Lemma stale_entry_is_served_and_refreshed_once_witness :
  let stale := 1000 + 31 * Sample.minute in
  let w := boot Sample.storage Sample.roomy in
  let w1 := (cachedFetch Sample.pelajar Sample.revalidating stale w).2 in
  let w2 := (cachedFetch Sample.pelajar defaults (stale + 1) w1).2 in
  let w3 := respond 1 (Arrived (JsonText (JStr "new list"))) (stale + 5) w1 in
  promises w1 !! 0%nat = Some (Fulfilled (JStr "old list"))
  ∧ fetchCalls (calls w1) = 1%nat
  ∧ calls w2 = calls w1
  ∧ localStorage w3 !! Sample.pelajarKey
    = Some (EntryText (mkEntry (stale + 5) (JStr "new list"))).
Proof.
  assert (Hmem : ∀ e, memoryCache (boot Sample.storage Sample.roomy) !! Sample.pelajarKey
                      = Some e →
                      isCacheValid (1000 + 31 * Sample.minute) e
                        (effectiveTTL None (getEntityFromUrl Sample.pelajar)) = false).
  { intros e He. vm_compute in He. discriminate. }
  destruct (stale_entry_is_served_and_refreshed_once Sample.pelajar Sample.revalidating
              (1000 + 31 * Sample.minute) (boot Sample.storage Sample.roomy)
              (mkEntry 1000 (JStr "old list")) eq_refl eq_refl eq_refl Hmem
              eq_refl eq_refl eq_refl)
    as (Hp & _ & Hfetch & _ & Hticket & Hjoin & Hlater).
  split; [exact Hp|]. split; [exact Hfetch|].
  destruct (Hjoin (cachedFetch Sample.pelajar Sample.revalidating
                     (1000 + 31 * Sample.minute) (boot Sample.storage Sample.roomy)).2
              defaults (1000 + 31 * Sample.minute + 1) Hticket eq_refl)
    as (_ & _ & Hcalls & _).
  split; [exact Hcalls|].
  destruct (Hlater (JStr "new list") (1000 + 31 * Sample.minute + 5)) as (_ & _ & _ & Hdur).
  exact (Hdur eq_refl).
Defined.

(** ** Statistics *)

Lemma call_stats (url : string) (options : Options) (now : Z) (w : World) :
  let w1 := (cachedFetch url options now w).2 in
  (skipCache options = true
   ∨ reading options = true ∧ is_Some (inflight w !! getCacheKey url) →
   stats w1 = stats w)
  ∧ (skipCache options = false →
     forceRefresh options = true ∨ inflight w !! getCacheKey url = None →
     stats w1 = mkStats (S (hits (stats w))) (misses (stats w))
     ∨ stats w1 = mkStats (hits (stats w)) (S (misses (stats w)))).
Proof.
  unfold cachedFetch, readCache, readDurable, newPromise, localStorage_getItem, reading.
  cbn zeta.
  destruct (forceRefresh options) eqn:Hforce, (skipCache options) eqn:Hskip; cbn.
  - split; [done|]. by intros [=].
  - split; [by intros [[=]|[[=] _]]|]. intros _ _. by right.
  - split; [done|]. by intros [=].
  - split.
    + intros [[=]|[_ [t Ht]]]. by rewrite Ht.
    + intros _ [[=]|Hnone]. rewrite Hnone.
      repeat (case_match; simplify_eq/=); auto.
Qed.

Lemma respond_stats ticket result later w : stats (respond ticket result later w) = stats w.
Proof.
  destruct (network w !! ticket) as [waiting|] eqn:Hpending; [|by rewrite respond_idle].
  destruct waiting as [url|url cacheKey stale|url cacheKey caller].
  - unfold respond. by rewrite Hpending.
  - unfold respond. rewrite Hpending. unfold refreshBody, localStorage_setItem.
    destruct result as [[value|raw]|]; cbn; try done.
    by destruct (setItemThrows w (localStorage w) cacheKey _).
  - destruct result as [[value|raw]|].
    + by destruct (respond_fetched w ticket caller url cacheKey value later Hpending)
        as (_ & _ & _ & _ & _ & _ & _ & _ & _ & ?).
    + unfold respond. rewrite Hpending.
      unfold fetchBody, staleFallback, localStorage_getItem. cbn.
      repeat (case_match; simplify_eq/=); done.
    + unfold respond. rewrite Hpending.
      unfold fetchBody, staleFallback, localStorage_getItem. cbn.
      repeat (case_match; simplify_eq/=); done.
Qed.

Lemma exec_stats a w :
  isReset a = false →
  (hits (stats w) ≤ hits (stats (exec w a)))%nat
  ∧ (misses (stats w) ≤ misses (stats (exec w a)))%nat.
Proof.
  intros Hreset.
  destruct a as [url options now|ticket result now|entityPrefix|now|]; unfold exec;
    [| | | |done].
  - destruct (call_stats url options now w) as [Hsame Hcount]. cbn zeta in *.
    destruct (skipCache options) eqn:Hskip; [rewrite Hsame by auto; lia|].
    destruct (forceRefresh options) eqn:Hforce.
    + destruct Hcount as [-> | ->]; auto; cbn; lia.
    + destruct (inflight w !! getCacheKey url) as [t|] eqn:Hflight.
      * rewrite Hsame; [lia|]. right. unfold reading. rewrite Hskip, Hforce. eauto.
      * destruct Hcount as [-> | ->]; auto; cbn; lia.
  - rewrite respond_stats. lia.
  - destruct (clearCache_hostChange entityPrefix w) as (_ & _ & -> & _). lia.
  - destruct (clearOldCache_hostChange now w) as (_ & _ & -> & _). lia.
Qed.

(** X8: the counters only grow until resetStats is called.  Of the calls
    for a URL of characters below 256: a call with skipCache, and a call
    that joins a pending fetch, count nothing; every other call counts
    exactly one hit or one miss.  Responses count nothing. *)
Theorem stats_account (script : list Action) (w : World) :
  (Forall (λ a, isReset a = false) script →
   (hits (stats w) ≤ hits (stats (run w script)))%nat
   ∧ (misses (stats w) ≤ misses (stats (run w script)))%nat)
  ∧ (∀ ticket result later, stats (respond ticket result later w) = stats w)
  ∧ ∀ (url : string) (options : Options) (now : Z),
      let w1 := (cachedFetch url options now w).2 in
      (skipCache options = true
       ∨ reading options = true ∧ is_Some (inflight w !! getCacheKey url) →
       stats w1 = stats w)
      ∧ (skipCache options = false →
         forceRefresh options = true ∨ inflight w !! getCacheKey url = None →
         (hits (stats w1) + misses (stats w1) = S (hits (stats w) + misses (stats w)))%nat).
Proof.
  split; [|split].
  - revert w; induction script as [|a script IH]; intros w Hscript; [done|].
    apply Forall_cons in Hscript as [Ha Hscript].
    change (run w (a :: script)) with (run (exec w a) script).
    destruct (exec_stats a w Ha). destruct (IH (exec w a) Hscript). lia.
  - intros ticket result later. apply respond_stats.
  - intros url options now. destruct (call_stats url options now w) as [Hsame Hcount].
    cbn zeta in *. split; [done|].
    intros Hskip Hfree. destruct (Hcount Hskip Hfree) as [-> | ->]; cbn; lia.
Qed.

Lemma stats_account_witness :
  let w := boot Sample.storage Sample.roomy in
  let script := [Call Sample.pelajar defaults 1500;
                 Call Sample.ruang defaults 1600;
                 Call Sample.ruang defaults 1601;
                 Call Sample.ruang Sample.skipping 1602;
                 Respond 2 Unreachable 1700] in
  (hits (stats w) ≤ hits (stats (run w script)))%nat
  ∧ stats (run w script) = mkStats 1 1
  ∧ stats (cachedFetch Sample.ruang Sample.skipping 1602 w).2 = stats w.
Proof.
  destruct (stats_account
              [Call Sample.pelajar defaults 1500;
               Call Sample.ruang defaults 1600;
               Call Sample.ruang defaults 1601;
               Call Sample.ruang Sample.skipping 1602;
               Respond 2 Unreachable 1700]
              (boot Sample.storage Sample.roomy)) as (Hmono & _ & Hcall).
  split; [apply Hmono; repeat constructor|].
  split; [vm_compute; reflexivity|].
  destruct (Hcall Sample.ruang Sample.skipping 1602) as [Hsame _].
  apply Hsame. left. reflexivity.
Defined.

(** ** Clearing *)

Lemma deleteAll_size (keys : list string) (s : gmap string Stored) :
  NoDup keys → (∀ k, k ∈ keys → is_Some (s !! k)) →
  (size (deleteAll keys s) + length keys = size s)%nat.
Proof.
  unfold deleteAll.
  revert s; induction keys as [|key keys IH]; intros s Hnodup Hin; cbn; [lia|].
  apply NoDup_cons in Hnodup as [Hfresh Hnodup].
  assert (Hrest : ∀ k, k ∈ keys → is_Some (delete key s !! k)).
  { intros k Hk. rewrite lookup_delete_ne; [apply Hin; by right|].
    intros ->. done. }
  pose proof (IH (delete key s) Hnodup Hrest) as Hsize.
  destruct (Hin key) as [v Hv]; [by left|].
  rewrite map_size_delete, Hv in Hsize.
  assert (size s ≠ 0)%nat by (intros ?%map_size_empty_iff; by subst).
  lia.
Qed.

Lemma filter_nil {A} (f : A → bool) (l : list A) :
  (∀ x, x ∈ l → f x = false) → List.filter f l = [].
Proof.
  induction l as [|x l IH]; intros H; [done|]. cbn.
  rewrite (H x) by (by left). apply IH. intros y Hy. apply H. by right.
Qed.

Lemma keys_NoDup (w : World) : NoDup (localStorage_keys w).
Proof. apply NoDup_fst_map_to_list. Qed.

Lemma filtered_keys_size (f : string → bool) (w : World) :
  (size (deleteAll (List.filter f (localStorage_keys w)) (localStorage w))
   + length (List.filter f (localStorage_keys w)) = size (localStorage w))%nat.
Proof.
  apply deleteAll_size.
  - apply NoDup_ListNoDup, List.NoDup_filter, NoDup_ListNoDup, keys_NoDup.
  - intros k [Hk _]%list_elem_of_In%filter_In. by apply keys_elem, list_elem_of_In.
Qed.

(** X9: clearCache takes no notice of its entity prefix: with any prefix
    it removes every namespaced key and returns how many there were, which
    is by how much localStorage shrinks.  Straight after it a second
    clearCache, or clearOldCache, finds nothing to remove. *)
Theorem clearCache_clears_the_namespace (entityPrefix : option string) (w : World) :
  let count := (clearCache entityPrefix w).1 in
  let w1 := (clearCache entityPrefix w).2 in
  (∀ other, (clearCache other w).1 = count
            ∧ localStorage (clearCache other w).2 = localStorage w1)
  ∧ (size (localStorage w1) + count = size (localStorage w))%nat
  ∧ (∀ other, (clearCache other w1).1 = 0%nat)
  ∧ ∀ now, (clearOldCache now w1).1 = 0%nat.
Proof.
  cbn zeta. split; [|split; [|split]].
  - intros other. by rewrite !clearCache_spec.
  - rewrite clearCache_spec. cbn. apply filtered_keys_size.
  - intros other. rewrite (clearCache_spec other). cbn [fst].
    unfold ownKeys. rewrite filter_nil; [done|].
    intros k [v Hv]%keys_elem. rewrite clearCache_lookup in Hv.
    by destruct (namespaced k).
  - intros now. rewrite clearOldCache_spec. cbn [fst].
    unfold oldKeys. rewrite filter_nil; [done|].
    intros k [v Hv]%keys_elem. rewrite clearCache_lookup in Hv.
    by destruct (namespaced k).
Qed.

(** X10: clearOldCache removes every namespaced entry written more than
    24 hours before [now] and every namespaced value that does not parse.
    It keeps every entry of at most 24 hours, one of exactly 24 hours
    included, and every key outside the namespace.  It returns the number
    removed, which is by how much localStorage shrinks and is at most what
    clearCache would remove, and running it again at the same time removes
    nothing. *)
Theorem clearOldCache_removes_the_old (now : Z) (w : World) :
  let count := (clearOldCache now w).1 in
  let w1 := (clearOldCache now w).2 in
  (∀ k e, namespaced k = true → localStorage w !! k = Some (EntryText e) →
          (24 * 60 * 60 * 1000 < now - timestamp e)%Z →
          localStorage w1 !! k = None)
  ∧ (∀ k raw, namespaced k = true → localStorage w !! k = Some (OtherText raw) →
              localStorage w1 !! k = None)
  ∧ (∀ k e, localStorage w !! k = Some (EntryText e) →
            (now - timestamp e ≤ 24 * 60 * 60 * 1000)%Z →
            localStorage w1 !! k = Some (EntryText e))
  ∧ (∀ k, namespaced k = false → localStorage w1 !! k = localStorage w !! k)
  ∧ (size (localStorage w1) + count = size (localStorage w))%nat
  ∧ (count ≤ (clearCache None w).1)%nat
  ∧ (clearOldCache now w1).1 = 0%nat.
Proof.
  cbn zeta. split; [|split; [|split; [|split; [|split; [|split]]]]].
  - intros k e Hown Hstored Hage. rewrite clearOldCache_lookup, Hstored, Hown.
    cbn [tooOld parse_entry andb].
    by destruct (Z.ltb_spec (24 * 60 * 60 * 1000) (now - timestamp e)); [|lia].
  - intros k raw Hown Hstored. by rewrite clearOldCache_lookup, Hstored, Hown.
  - intros k e Hstored Hage. rewrite clearOldCache_lookup, Hstored.
    cbn [tooOld parse_entry].
    destruct (Z.ltb_spec (24 * 60 * 60 * 1000) (now - timestamp e)); [lia|].
    by rewrite andb_false_r.
  - intros k Hforeign. by rewrite clearOldCache_lookup, Hforeign.
  - rewrite clearOldCache_spec. cbn. apply filtered_keys_size.
  - rewrite clearOldCache_spec, clearCache_spec. cbn [fst].
    unfold oldKeys, ownKeys.
    induction (localStorage_keys w) as [|k keys IH]; cbn; [lia|].
    destruct (namespaced k); cbn; [|done].
    destruct (tooOld now (localStorage w !! k)); cbn; lia.
  - rewrite (clearOldCache_spec now (clearOldCache now w).2). cbn [fst].
    unfold oldKeys. rewrite filter_nil; [done|].
    intros k [v Hv]%keys_elem. rewrite clearOldCache_lookup in *.
    destruct (namespaced k && tooOld now (localStorage w !! k)) eqn:Hold; [done|].
    by rewrite Hold.
Qed.

Lemma clearOldCache_removes_the_old_witness :
  let now := 3 * Scenario.day in
  let w := boot Scenario.attic Sample.roomy in
  let w1 := (clearOldCache now w).2 in
  (clearOldCache now w).1 = 2%nat
  ∧ localStorage w1 !! Sample.pelajarKey
    = Some (EntryText (mkEntry (now - 1000) (JStr "list")))
  ∧ localStorage w1 !! Sample.ruangKey = None
  ∧ localStorage w1 !! "TTMS_cache_0_broken" = None
  ∧ localStorage w1 !! "TTMSFC_userSession" = Some (OtherText "student").
Proof.
  destruct (clearOldCache_removes_the_old (3 * Scenario.day)
              (boot Scenario.attic Sample.roomy))
    as (Hold & Hbroken & Hkept & Hforeign & _).
  split; [vm_compute; reflexivity|].
  split; [apply Hkept; [reflexivity|vm_compute; discriminate]|].
  split; [apply (Hold _ (mkEntry Scenario.day (JStr "rooms"))); reflexivity|].
  split; [apply (Hbroken _ "{"); reflexivity|].
  rewrite Hforeign; reflexivity.
Defined.

(** ** The namespace *)

Lemma oldKeys_namespaced now w k : k ∈ oldKeys now w → namespaced k = true.
Proof.
  intros [_ H]%list_elem_of_In%filter_In. by apply andb_true_iff in H as [? _].
Qed.

Lemma persist_foreign key e now w k :
  namespaced key = true → namespaced k = false →
  localStorage (persist key e now w) !! k = localStorage w !! k.
Proof.
  intros Hkey Hk.
  assert (Hne : key ≠ k) by congruence.
  unfold persist, localStorage_setItem. destruct (storageQuotaExceeded w); [done|]. cbn.
  destruct (setItemThrows w (localStorage w) key (JSON_stringify e)) as [[]|]; cbn;
    [|done|by rewrite lookup_insert_ne].
  rewrite clearOldCache_spec. cbn.
  assert (Hswept : ∀ ks, ks = oldKeys now w →
                         deleteAll ks (localStorage w) !! k = localStorage w !! k).
  { intros ks ->. rewrite deleteAll_lookup.
    destruct (decide (k ∈ oldKeys now w)) as [Hin|]; [|done].
    apply oldKeys_namespaced in Hin. congruence. }
  match goal with
  | |- context [setItemThrows w (deleteAll ?ks ?st) key ?v] =>
      destruct (setItemThrows w (deleteAll ks st) key v)
  end; cbn; rewrite ?lookup_insert_ne by done; by apply Hswept.
Qed.

Lemma keyed_boot storage throws : keyed (boot storage throws).
Proof. intros t a Hta. cbn in Hta. by rewrite lookup_empty in Hta. Qed.

Lemma keyed_exec a w : keyed w → keyed (exec w a).
Proof.
  intros Hkeyed.
  destruct a as [url options now|ticket result now|entityPrefix|now|]; unfold exec.
  - destruct (call_shape url options now w) as (_ & Hshape). cbn zeta in Hshape.
    intros t a Hta.
    destruct Hshape as [(Hnet & _)
                       |[((stale & Hnet & _) & _)
                        |(Hnet & _)]].
    + destruct Hnet as [Hnet|[_ Hnet]]; rewrite Hnet in Hta; [by apply (Hkeyed t)|].
      apply lookup_insert_Some in Hta as [[_ <-]|[_ Hta]]; [done|by apply (Hkeyed t)].
    + rewrite Hnet in Hta.
      apply lookup_insert_Some in Hta as [[_ <-]|[_ Hta]]; [done|by apply (Hkeyed t)].
    + rewrite Hnet in Hta.
      apply lookup_insert_Some in Hta as [[_ <-]|[_ Hta]]; [done|by apply (Hkeyed t)].
  - destruct (network w !! ticket) as [waiting|] eqn:Hpending;
      [|by rewrite respond_idle].
    destruct (respond_shape ticket result now w waiting Hpending) as (Hnet & _).
    intros t a Hta. rewrite Hnet in Hta.
    apply lookup_delete_Some in Hta as [_ Hta]. by apply (Hkeyed t).
  - destruct (clearCache_hostChange entityPrefix w) as (_ & _ & _ & _ & Hn & _).
    intros t a Hta. rewrite Hn in Hta. by apply (Hkeyed t).
  - destruct (clearOldCache_hostChange now w) as (_ & _ & _ & _ & Hn & _).
    intros t a Hta. rewrite Hn in Hta. by apply (Hkeyed t).
  - done.
Qed.

Lemma exec_foreign a w k :
  keyed w → namespaced k = false →
  localStorage (exec w a) !! k = localStorage w !! k.
Proof.
  intros Hkeyed Hk.
  destruct a as [url options now|ticket result now|entityPrefix|now|]; unfold exec.
  - by destruct (cachedFetch_breaker url options now w) as (_ & -> & _).
  - destruct (network w !! ticket) as [waiting|] eqn:Hpending;
      [|by rewrite respond_idle].
    pose proof (Hkeyed ticket waiting Hpending) as Hkey.
    destruct waiting as [url|url cacheKey stale|url cacheKey caller].
    + unfold respond. by rewrite Hpending.
    + subst cacheKey. pose proof (getCacheKey_namespaced url) as Hns.
      destruct result as [[value|raw]|].
      * destruct (respond_refreshed w ticket url _ stale value now Hpending)
          as (_ & -> & _).
        destruct (setItemThrows w (localStorage w) (getCacheKey url) _); [done|].
        rewrite lookup_insert_ne; [done|congruence].
      * destruct (respond_failed_refresh w ticket url _ stale (Arrived (BadText raw)) now
                    Hpending) as (_ & -> & _); eauto.
      * destruct (respond_failed_refresh w ticket url _ stale Unreachable now Hpending)
          as (_ & -> & _); eauto.
    + subst cacheKey. pose proof (getCacheKey_namespaced url) as Hns.
      destruct result as [[value|raw]|].
      * destruct (respond_fetched w ticket caller url _ value now Hpending)
          as (_ & -> & _).
        by apply persist_foreign.
      * by destruct (respond_failed_fetch w ticket caller url _ (Arrived (BadText raw))
                       InvalidJSONResponse now Hpending eq_refl) as (_ & -> & _).
      * by destruct (respond_failed_fetch w ticket caller url _ Unreachable
                       NetworkFailure now Hpending eq_refl) as (_ & -> & _).
  - rewrite clearCache_lookup. by rewrite Hk.
  - rewrite clearOldCache_lookup. by rewrite Hk.
  - done.
Qed.

Lemma run_foreign script w k :
  keyed w → namespaced k = false →
  localStorage (run w script) !! k = localStorage w !! k.
Proof.
  revert w; induction script as [|a script IH]; intros w Hkeyed Hk; [done|].
  change (run w (a :: script)) with (run (exec w a) script).
  rewrite IH by (by try apply keyed_exec). by apply exec_foreign.
Qed.

(** X11: the cache keeps to its namespace.  Whatever is called and
    whatever the network answers, a key of localStorage that does not
    begin with the cache prefix keeps its value; so both session gates
    decide after any use of the cache as they did before. *)
Theorem cache_keeps_to_its_namespace (storage : gmap string Stored)
    (throws : gmap string Stored → string → Stored → option DOMException)
    (script : list Action) :
  let w := run (boot storage throws) script in
  (∀ k, namespaced k = false → localStorage w !! k = storage !! k)
  ∧ ∀ path, securityGate path (localStorage w) = securityGate path storage
            ∧ userGate path (localStorage w) = userGate path storage.
Proof.
  cbn zeta.
  assert (Hforeign : ∀ k, namespaced k = false →
            localStorage (run (boot storage throws) script) !! k = storage !! k).
  { intros k Hk. by rewrite run_foreign by (by try apply keyed_boot). }
  split; [done|]. intros path. unfold securityGate, userGate. cbv zeta.
  destruct (includes path "AdminPart"); cbv iota;
    rewrite ?(Hforeign "TTMSFC_userSession"), ?(Hforeign "TTMSFC_adminSession")
      by reflexivity; done.
Qed.

(** ** Session gates *)

Lemma noSession_false (session : option Stored) :
  noSession session = false ↔ ∃ text, session = Some text ∧ nonempty text = true.
Proof.
  unfold noSession. destruct session as [text|].
  - rewrite negb_false_iff. split; [eauto|]. by intros (? & [= <-] & ?).
  - split; [done|]. by intros (? & [=] & _).
Qed.

(** X12: the gate of part_000 shows a page under AdminPart exactly when
    localStorage holds a non-empty admin session, and sends everybody else
    to ../Login.html; a user session does not open it.  On every other
    path it shows the page exactly when a non-empty user session is held,
    which is when the older gate of part_001 shows it; that older gate
    asks for the user session under AdminPart too. *)
Theorem gates_ask_for_the_session (path : string) (store : gmap string Stored) :
  let held key := ∃ text, store !! key = Some text ∧ nonempty text = true in
  (includes path "AdminPart" = true →
   (securityGate path store = Visible ↔ held "TTMSFC_adminSession")
   ∧ (¬ held "TTMSFC_adminSession" →
      securityGate path store
      = Redirected "Unauthorized access! Please login." "../Login.html"))
  ∧ (includes path "AdminPart" = false →
     (securityGate path store = Visible ↔ held "TTMSFC_userSession"))
  ∧ (userGate path store = Visible ↔ held "TTMSFC_userSession").
Proof.
  cbn zeta. unfold securityGate, userGate. cbv zeta.
  split; [|split].
  - intros ->. cbv iota. cbn [orb].
    rewrite <- noSession_false.
    destruct (noSession (store !! "TTMSFC_adminSession")); split; done.
  - intros ->. cbv iota. rewrite <- noSession_false.
    by destruct (noSession (store !! "TTMSFC_userSession")).
  - rewrite <- noSession_false.
    by destruct (noSession (store !! "TTMSFC_userSession")).
Qed.

Lemma gates_ask_for_the_session_witness :
  securityGate "/ttms/AdminPart/Dashboard.html" Scenario.attic
  = Redirected "Unauthorized access! Please login." "../Login.html"
  ∧ userGate "/ttms/AdminPart/Dashboard.html" Scenario.attic = Visible
  ∧ securityGate "/ttms/StudentPart/Room/Room.html" Scenario.attic = Visible.
Proof.
  destruct (gates_ask_for_the_session "/ttms/AdminPart/Dashboard.html" Scenario.attic)
    as (Hadmin & _ & Huser).
  destruct (gates_ask_for_the_session "/ttms/StudentPart/Room/Room.html" Scenario.attic)
    as (_ & Hother & _).
  split; [|split].
  - apply (Hadmin eq_refl). intros (text & Htext & _). vm_compute in Htext. discriminate.
  - apply Huser. exists (OtherText "student"). split; reflexivity.
  - apply (Hother eq_refl). exists (OtherText "student"). split; reflexivity.
Defined.

(** ** The registry *)

Lemma live_boot storage throws : live (boot storage throws).
Proof. intros k t Hkt. cbn in Hkt. by rewrite lookup_empty in Hkt. Qed.

Lemma live_same w w' :
  network w' = network w → inflight w' = inflight w → live w → live w'.
Proof. unfold live. intros -> ->. done. Qed.

Lemma live_insert w w' ticket waiting :
  (∀ t a, network w !! t = Some a → t ≠ ticket) →
  (∀ url, waiting ≠ AwaitDirect url) →
  network w' = <[ticket := waiting]> (network w) →
  (inflight w' = inflight w
   ∨ inflight w' = <[ticketKey waiting := ticket]> (inflight w)) →
  live w → live w'.
Proof.
  intros Hfresh Hkind Hnet Hflight Hlive k t Hkt. rewrite Hnet.
  assert (Hold : inflight w !! k = Some t →
                 ∃ a, <[ticket := waiting]> (network w) !! t = Some a
                      ∧ ticketKey a = k ∧ ∀ url, a ≠ AwaitDirect url).
  { intros Hk. destruct (Hlive k t Hk) as (a & Ha & Hrest).
    exists a. split; [|done]. rewrite lookup_insert_ne; [done|].
    intros <-. by apply (Hfresh ticket a). }
  destruct Hflight as [Hflight|Hflight]; rewrite Hflight in Hkt; [by apply Hold|].
  apply lookup_insert_Some in Hkt as [[<- <-]|[_ Hkt]]; [|by apply Hold].
  exists waiting. by rewrite lookup_insert_eq.
Qed.

Lemma live_exec act w : tidy w → live w → live (exec w act).
Proof.
  intros [_ Hbelow] Hlive.
  assert (Hfresh : ∀ n t a, network w !! t = Some a → (fresh w ≤ n)%nat → t ≠ n).
  { intros n t a Hta Hn. destruct (Hbelow t a Hta). lia. }
  destruct act as [url options now|ticket result now|entityPrefix|now|]; unfold exec.
  - destruct (call_shape url options now w) as (_ & Hshape). cbn zeta in Hshape.
    destruct Hshape as [(Hnet & Hflight & _)
                       |[((stale & Hnet & _) & _ & Hflight & _)
                        |(Hnet & _ & _ & Hflight)]].
    + destruct Hnet as [Hnet|[_ Hnet]]; [by apply (live_same w)|].
      intros k t Hkt. rewrite Hflight in Hkt.
      destruct (Hlive k t Hkt) as (a & Ha & Hrest). exists a. split; [|done].
      rewrite Hnet, lookup_insert_ne; [done|].
      intros <-. exact (Hfresh (fresh w) (fresh w) a Ha (le_n _) eq_refl).
    + apply (live_insert w _ (S (fresh w)) (AwaitRefresh url (getCacheKey url) stale));
        try done; [|by right].
      intros t a Hta. apply (Hfresh _ _ a Hta). lia.
    + apply (live_insert w _ (S (fresh w)) (AwaitFetch url (getCacheKey url) (fresh w)));
        try done.
      * intros t a Hta. apply (Hfresh _ _ a Hta). lia.
      * destruct Hflight as [[_ ?]|[_ ?]]; auto.
  - destruct (network w !! ticket) as [waiting|] eqn:Hpending;
      [|by rewrite respond_idle].
    destruct (respond_shape ticket result now w waiting Hpending)
      as (Hnet & _ & _ & Hrest). cbn zeta in Hrest.
    intros k t Hkt. rewrite Hnet.
    assert (Hflight : inflight (respond ticket result now w) = inflight w
                      ∧ (∃ url, waiting = AwaitDirect url)
                      ∨ inflight (respond ticket result now w)
                        = delete (ticketKey waiting) (inflight w)).
    { destruct waiting; destruct Hrest as [Hflight _]; eauto. }
    destruct Hflight as [[Hflight [url0 ->]]|Hflight]; rewrite Hflight in Hkt.
    + destruct (Hlive k t Hkt) as (a & Ha & Hkey & Hkind). exists a.
      split; [|done]. rewrite lookup_delete_ne; [done|].
      intros <-. rewrite Hpending in Ha. injection Ha as <-.
      by destruct (Hkind url0).
    + apply lookup_delete_Some in Hkt as [Hne Hkt].
      destruct (Hlive k t Hkt) as (a & Ha & Hkey & Hkind). exists a.
      split; [|done]. rewrite lookup_delete_ne; [done|].
      intros <-. rewrite Hpending in Ha. injection Ha as <-. done.
  - destruct (clearCache_hostChange entityPrefix w) as (_ & Hi & _ & _ & Hn & _).
    by apply (live_same w).
  - destruct (clearOldCache_hostChange now w) as (_ & Hi & _ & _ & Hn & _).
    by apply (live_same w).
  - by apply (live_same w).
Qed.

Lemma live_run script w : tidy w → live w → live (run w script).
Proof.
  revert w; induction script as [|a script IH]; intros w Htidy Hlive; [done|].
  change (run w (a :: script)) with (run (exec w a) script).
  apply IH; [by apply tidy_exec|by apply live_exec].
Qed.

(** X13: no ticket outlives its fetch.  In every world the module can
    reach, a ticket registered for a key belongs to a fetch that is still
    pending for that key; so a call that joins it issues nothing itself and
    has its answer as soon as the response to that fetch is in. *)
Theorem registry_holds_only_pending_fetches (storage : gmap string Stored)
    (throws : gmap string Stored → string → Stored → option DOMException)
    (script : list Action) (url : string) (ticket : nat) :
  let w := run (boot storage throws) script in
  inflight w !! getCacheKey url = Some ticket →
  (∃ waiting, network w !! ticket = Some waiting
     ∧ ticketKey waiting = getCacheKey url)
  ∧ ∀ (options : Options) (now : Z),
      reading options = true →
      let p := (cachedFetch url options now w).1 in
      let w1 := (cachedFetch url options now w).2 in
      calls w1 = calls w ∧ network w1 = network w
      ∧ ∀ (result : NetResult) (later : Z),
          is_Some (delivered (respond ticket result later w1) p).
Proof.
  intros w Hticket.
  pose proof (live_run script _ (tidy_boot storage throws) (live_boot storage throws))
    as Hlive. fold w in Hlive.
  destruct (Hlive _ _ Hticket) as (waiting & Hpending & Hkey & Hkind).
  split; [by eauto|].
  intros options now Hreading. cbn zeta.
  rewrite (joined_path url options now w ticket Hreading Hticket). cbn [fst snd].
  split; [done|]. split; [done|]. intros result later.
  set (w1 := adopt (fresh w) ticket (set_fresh (S (fresh w)) w)).
  assert (Hpending1 : network w1 !! ticket = Some waiting) by done.
  destruct (respond_shape ticket result later w1 waiting Hpending1)
    as (_ & _ & Hadopted & Hrest). cbn zeta in Hrest.
  unfold delivered.
  destruct (promises (respond ticket result later w1) !! fresh w) as [o|] eqn:Hown;
    [by eexists|].
  rewrite Hadopted. unfold w1 at 1. cbn. rewrite lookup_insert_eq.
  destruct waiting as [url0|url0 cacheKey stale|url0 cacheKey caller].
  - by destruct (Hkind url0).
  - destruct Hrest as [_ [outcome ->]]. rewrite lookup_insert_eq. by eexists.
  - destruct Hrest as [_ (answer & -> & _)].
    rewrite lookup_insert. destruct (decide (caller = ticket)); [by eexists|].
    rewrite lookup_insert_eq. by eexists.
Qed.

Lemma registry_holds_only_pending_fetches_witness :
  let w := run (boot Sample.storage Sample.roomy)
             [Call Sample.ruang defaults 2000;
              Call Sample.ruang Sample.forcing 2001;
              Respond 3 Unreachable 2002;
              Call Sample.ruang defaults 2003] in
  let p := (cachedFetch Sample.ruang defaults 2004 w).1 in
  let w1 := (cachedFetch Sample.ruang defaults 2004 w).2 in
  inflight w !! Sample.ruangKey = Some 5%nat
  ∧ fetchCalls (calls w1) = 3%nat
  ∧ is_Some (delivered (respond 5 Unreachable 2005 w1) p).
Proof.
  destruct (registry_holds_only_pending_fetches Sample.storage Sample.roomy
              [Call Sample.ruang defaults 2000;
               Call Sample.ruang Sample.forcing 2001;
               Respond 3 Unreachable 2002;
               Call Sample.ruang defaults 2003] Sample.ruang 5)
    as (_ & Hjoin); [vm_compute; reflexivity|].
  destruct (Hjoin defaults 2004 eq_refl) as (Hcalls & _ & Hanswer).
  split; [vm_compute; reflexivity|].
  split; [rewrite Hcalls; vm_compute; reflexivity|].
  exact (Hanswer Unreachable 2005).
Defined.

(** X14: the [finally] of the miss path (lines 251-253) deletes the ticket
    of the key, whoever registered it.  When two fetches are pending for
    one key, one of them registered, the response to the other one leaves
    the key without a ticket while the registered fetch is still pending:
    the registry no longer covers every pending fetch. *)
Theorem response_drops_the_ticket_of_the_key (w : World) (first other : nat)
    (waiting : Awaiting) (url cacheKey : string) (caller : nat)
    (result : NetResult) (later : Z) :
  first ≠ other →
  inflight w !! cacheKey = Some first →
  network w !! first = Some waiting → ticketKey waiting = cacheKey →
  network w !! other = Some (AwaitFetch url cacheKey caller) →
  let w1 := respond other result later w in
  inflight w1 !! cacheKey = None
  ∧ network w1 !! first = Some waiting
  ∧ ¬ registered w1.
Proof.
  intros Hne Hticket Hfirst Hkey Hsecond. cbn zeta.
  destruct (respond_shape other result later w _ Hsecond) as (Hnet & _ & _ & Hflight & _).
  assert (H1 : inflight (respond other result later w) !! cacheKey = None)
    by (rewrite Hflight; apply lookup_delete_eq).
  assert (H2 : network (respond other result later w) !! first = Some waiting)
    by (rewrite Hnet, lookup_delete_ne; done).
  split; [done|]. split; [done|].
  intros Hreg. specialize (Hreg first waiting H2).
  rewrite Hkey, H1 in Hreg. discriminate.
Qed.

Lemma response_drops_the_ticket_of_the_key_witness :
  let w := run (boot Sample.storage Sample.roomy)
             [Call Sample.ruang defaults 2000;
              Call Sample.ruang Sample.forcing 2001] in
  let w1 := respond 3 Unreachable 2002 w in
  let w2 := (cachedFetch Sample.ruang defaults 2003 w1).2 in
  inflight w !! Sample.ruangKey = Some 1%nat
  ∧ inflight w1 !! Sample.ruangKey = None
  ∧ network w1 !! 1%nat = Some (AwaitFetch Sample.ruang Sample.ruangKey 0)
  ∧ fetchCalls (calls w2) = 3%nat.
Proof.
  set (w := run (boot Sample.storage Sample.roomy)
              [Call Sample.ruang defaults 2000;
               Call Sample.ruang Sample.forcing 2001]).
  destruct (response_drops_the_ticket_of_the_key w 1 3
              (AwaitFetch Sample.ruang Sample.ruangKey 0) Sample.ruang Sample.ruangKey 2
              Unreachable 2002) as (Hgone & Hstill & _);
    [lia|vm_compute; reflexivity..|].
  split; [vm_compute; reflexivity|]. split; [exact Hgone|]. split; [exact Hstill|].
  vm_compute. reflexivity.
Defined.

(** ** Prefetch *)



(** ** Validity and eviction *)

Lemma ttlFor_bounds (entity : string) :
  (30 * 60 * 1000 ≤ ttlFor entity ≤ 24 * 60 * 60 * 1000)%Z.
Proof.
  unfold ttlFor, TTL_CONFIG; cbn [ownProperty].
  repeat (destruct (String.eqb _ entity); [lia|]). lia.
Qed.

(** X16: without a customTTL, and for an entity class that is no property
    name of Object.prototype, an entry is valid from the moment it is
    written until its age reaches the TTL of the class, which lies between
    30 minutes and 24 hours; an entry with timestamp 0 is never valid.  So
    the age-based eviction of clearOldCache never removes an entry that is
    still valid. *)
Theorem valid_entries_are_not_evicted (url : string) (now : Z) (cacheEntry : CacheEntry) :
  let ttl := effectiveTTL None (getEntityFromUrl url) in
  inPrototype (getEntityFromUrl url) = false →
  (30 * 60 * 1000 ≤ ttlFor (getEntityFromUrl url) ≤ 24 * 60 * 60 * 1000)%Z
  ∧ (isCacheValid now cacheEntry ttl = true
     ↔ timestamp cacheEntry ≠ 0
       ∧ now - timestamp cacheEntry < ttlFor (getEntityFromUrl url))
  ∧ ∀ (w : World) (k : string),
      isCacheValid now cacheEntry ttl = true →
      localStorage w !! k = Some (EntryText cacheEntry) →
      localStorage (clearOldCache now w).2 !! k = Some (EntryText cacheEntry).
Proof.
  intros ttl Hproto. subst ttl.
  pose proof (ttlFor_bounds (getEntityFromUrl url)) as Hbounds.
  assert (Hvalid : isCacheValid now cacheEntry (effectiveTTL None (getEntityFromUrl url))
                   = true
                   ↔ timestamp cacheEntry ≠ 0
                     ∧ now - timestamp cacheEntry < ttlFor (getEntityFromUrl url)).
  { unfold effectiveTTL. rewrite getTTL_table by done. unfold isCacheValid, lessThan.
    destruct (Z.eqb_spec (timestamp cacheEntry) 0) as [->|Hne].
    - split; [done|]. by intros [? _].
    - rewrite Z.ltb_lt. split; [done|]. by intros [_ ?]. }
  split; [done|]. split; [done|].
  intros w k [Hne Hage]%Hvalid Hstored.
  rewrite clearOldCache_lookup, Hstored. cbn [tooOld parse_entry].
  destruct (Z.ltb_spec (24 * 60 * 60 * 1000) (now - timestamp cacheEntry)); [lia|].
  by rewrite andb_false_r.
Qed.

Lemma valid_entries_are_not_evicted_witness :
  let now := 3 * Scenario.day in
  let cacheEntry := mkEntry (now - 1000) (JStr "list") in
  isCacheValid now cacheEntry (effectiveTTL None (getEntityFromUrl Sample.pelajar)) = true
  ∧ localStorage (clearOldCache now (boot Scenario.attic Sample.roomy)).2 !! Sample.pelajarKey
    = Some (EntryText cacheEntry).
Proof.
  destruct (valid_entries_are_not_evicted Sample.pelajar (3 * Scenario.day)
              (mkEntry (3 * Scenario.day - 1000) (JStr "list")) eq_refl)
    as (_ & _ & Hkept).
  split; [reflexivity|].
  apply Hkept; reflexivity.
Defined.

Lemma cache_keeps_to_its_namespace_witness :
  let w := run (boot Scenario.attic (Sample.roomFor 4))
             [Call Sample.ruang Sample.forcing (3 * Scenario.day);
              Respond 1 (Arrived (JsonText (JStr "rooms"))) (3 * Scenario.day + 5);
              ClearCache (Some "ruang")] in
  localStorage w !! "TTMSFC_userSession" = Some (OtherText "student")
  ∧ securityGate "/ttms/StudentPart/Room/Room.html" (localStorage w) = Visible.
Proof.
  destruct (cache_keeps_to_its_namespace Scenario.attic (Sample.roomFor 4)
              [Call Sample.ruang Sample.forcing (3 * Scenario.day);
               Respond 1 (Arrived (JsonText (JStr "rooms"))) (3 * Scenario.day + 5);
               ClearCache (Some "ruang")]) as [Hkey Hgate].
  split.
  - rewrite (Hkey "TTMSFC_userSession" eq_refl). reflexivity.
  - rewrite (proj1 (Hgate "/ttms/StudentPart/Room/Room.html")). reflexivity.
Defined.

(** ** The Key Deriver and characters above 255 *)

Lemma hash_units_codeUnits (url : string) (h : Z) :
  hash_units (codeUnits url) h = hash_loop url h.
Proof.
  revert h; induction url as [|c url IH]; intros h; [done|].
  change (hash_units (codeUnits (String c url)) h)
    with (hash_units (codeUnits url) (hash_step h c)).
  apply IH.
Qed.

Lemma take_codeUnits (n : nat) (url : string) :
  take n (codeUnits url) = codeUnits (substring 0 n url).
Proof.
  revert url; induction n as [|n IH]; intros [|c url]; try done.
  change (N_of_ascii c :: take n (codeUnits url)
          = N_of_ascii c :: codeUnits (substring 0 n url)).
  by rewrite IH.
Qed.

Lemma codeUnits_narrow (url : string) :
  forallb (λ u, (u <=? 255)%N) (codeUnits url) = true.
Proof.
  induction url as [|c url IH]; [done|].
  change (((N_of_ascii c <=? 255)%N && forallb (λ u, (u <=? 255)%N) (codeUnits url)) = true).
  rewrite IH, andb_true_r. apply N.leb_le.
  pose proof (N_ascii_bounded c). lia.
Qed.

Lemma forallb_false {A} (f : A → bool) (l : list A) :
  forallb f l = false ↔ ∃ x, x ∈ l ∧ f x = false.
Proof.
  induction l as [|a l IH]; cbn.
  - split; [done|]. by intros (x & Hin%elem_of_nil & _).
  - destruct (f a) eqn:Ha; cbn.
    + rewrite IH. split.
      * intros (x & Hin & Hx). exists x. split; [by right|done].
      * intros (x & [->|Hin]%elem_of_cons & Hx); [congruence|by exists x].
    + split; [|done]. intros _. exists a. split; [by left|done].
Qed.

(** X17: getCacheKey is not total on JavaScript strings.  It throws (in
    [btoa]) exactly when one of the first 100 code units of the URL
    exceeds 255, and returns a key otherwise; on a URL whose code units
    are all below 256 that key is the one [getCacheKey] computes. *)
Theorem key_needs_narrow_characters :
  (∀ url : string, getCacheKey_units (codeUnits url) = Some (getCacheKey url))
  ∧ ∀ units : list N,
      getCacheKey_units units = None ↔ ∃ u, u ∈ take 100 units ∧ (255 < u)%N.
Proof.
  split.
  - intros url. unfold getCacheKey_units, btoa_units, getCacheKey, btoa.
    rewrite take_codeUnits, codeUnits_narrow, hash_units_codeUnits. done.
  - intros units. unfold getCacheKey_units, btoa_units.
    destruct (forallb (λ u, (u <=? 255)%N) (take 100 units)) eqn:Hnarrow.
    + split; [done|]. intros (u & Hin & Hwide).
      assert (Hfalse : forallb (λ u, (u <=? 255)%N) (take 100 units) = false).
      { apply forallb_false. exists u. split; [done|]. apply N.leb_gt. lia. }
      congruence.
    + split; [|done]. intros _.
      apply forallb_false in Hnarrow as (u & Hin & Hu).
      exists u. split; [done|]. apply N.leb_gt in Hu. lia.
Qed.

(** A student list asked for by a name with the letter U+0142 in it:
    there is no key, so a call of cachedFetch without skipCache ends at
    line 107, before it counts, reads or fetches anything.  The same
    letter beyond the first 100 characters is no obstacle. *)
Remark wide_character_in_url :
  getCacheKey_units (codeUnits Scenario.short ++ [322%N]) = None
  ∧ is_Some (getCacheKey_units (codeUnits Scenario.long ++ [322%N])).
Proof. vm_compute. split; [reflexivity|eexists; reflexivity]. Qed.
